(** * FFDNet pixel-rearrangement layers of [denoising/functions.py]

    A shallow embedding of [concatenate_input_noise_map] and of
    [UpSampleFeaturesFunction.forward] / [.backward], together with the
    fragment of the tensor library they call: [size], [zeros],
    [empty(...).fill_(0)], [view], [repeat], strided basic indexing,
    strided slice assignment with broadcasting, and [cat] with its
    promotion of element types. *)

From Stdlib Require Import Arith Lia List String Bool ZArith Zify ZifyNat.
From Stdlib Require Import Permutation Ascii DecimalString DecimalNat.
From Stdlib Require Import SpecFloat.
Import ListNotations.

Ltac Zify.zify_post_hook ::= Z.div_mod_to_equations.

Set Implicit Arguments.

(** ** Python results: a value or a raised exception *)

Inductive exn : Type :=
| RuntimeError (what : string)
| ValueError (what : string)
| IndexError (what : string)
| AssertionError (msg : string).

Inductive result (T : Type) : Type :=
| Ok (v : T)
| Raise (e : exn).

Arguments Ok {T} v.
Arguments Raise {T} e.

Definition bind {T U : Type} (r : result T) (k : T -> result U) : result U :=
  match r with
  | Ok v => k v
  | Raise e => Raise e
  end.

Notation "x <- r ;; k" := (bind r (fun x => k))
  (at level 61, r at next level, right associativity).

Definition fails {T : Type} (r : result T) : Prop :=
  exists e, r = Raise e.

(** [for idx in range(n): acc = body idx acc], stopping at the first
    exception. *)
Fixpoint for_each {T : Type} (idxs : list nat) (body : nat -> T -> result T)
    (acc : T) : result T :=
  match idxs with
  | [] => Ok acc
  | idx :: rest => acc' <- body idx acc ;; for_each rest body acc'
  end.

Definition for_range {T : Type} (n : nat) (body : nat -> T -> result T)
    (acc : T) : result T :=
  for_each (seq 0 n) body acc.

(** Subscripting a Python list: [l[i]] raises [IndexError] out of range. *)
Definition subscript {T : Type} (l : list T) (i : nat) : result T :=
  match nth_error l i with
  | Some v => Ok v
  | None => Raise (IndexError "list index out of range")
  end.

(** ** Element types *)

Class Dtype (A : Type) : Type := { zero : A }.

#[export] Instance Dtype_Z : Dtype Z := {| zero := 0%Z |}.

(** Type promotion. An operation on tensors of element types [A] and [B]
    converts both to their promoted type [R]: [promote_l] converts the
    elements of the first tensor and [promote_r] those of the second. *)
Class Promote (A B R : Type) : Type := {
  promote_l : A -> R;
  promote_r : B -> R
}.

Arguments promote_l {A B R} Promote a.
Arguments promote_r {A B R} Promote b.

(** Two tensors of one element type keep it, and no element changes. *)
#[export] Instance Promote_same (A : Type) : Promote A A A :=
  {| promote_l := fun a => a; promote_r := fun a => a |}.

(** [torch.float32]: binary floating point with 24 bits of precision.
    [torch.int64] values are integers, taken in the range of the type. *)
#[export] Instance Dtype_float32 : Dtype spec_float :=
  {| zero := S754_zero false |}.

(** The conversion of an [int64] to [float32]: the nearest float, ties to
    the even mantissa. *)
Definition float32_of_int64 (z : Z) : spec_float :=
  binary_normalize 24 128 z 0 false.

(** An integer tensor with a [float32] tensor gives [float32], in either
    order. *)
Definition promote_int64_float32 : Promote Z spec_float spec_float :=
  {| promote_l := float32_of_int64; promote_r := fun f => f |}.

Definition promote_float32_int64 : Promote spec_float Z spec_float :=
  {| promote_l := fun f => f; promote_r := float32_of_int64 |}.

(** The integer a float is equal to, when it is one. *)
Definition integer_value (f : spec_float) : option Z :=
  match f with
  | S754_zero _ => Some 0%Z
  | S754_finite s m e =>
      if (0 <=? e)%Z then Some (cond_Zopp s (Zpos m) * 2 ^ e)%Z
      else if (Zpos m mod 2 ^ (- e) =? 0)%Z
           then Some (cond_Zopp s (Zpos m / 2 ^ (- e)))%Z
           else None
  | _ => None
  end.

(** ** Rank-4 tensors *)

Definition shape : Type := (nat * nat * nat * nat)%type.

Record tensor (A : Type) : Type := Tensor {
  size : shape;
  data : list (list (list (list A)))
}.

Arguments Tensor {A} size data.

(** Python slice objects with non-negative bounds, as the source writes
    them: [:] is [PSlice 0 None 1], [a::s] is [PSlice a None s] and
    [a:b:s] is [PSlice a (Some b) s]. *)
Record pslice : Type := PSlice {
  start : nat;
  stop : option nat;
  step : nat
}.

Definition slice_all : pslice := PSlice 0 None 1.

(** [slice.indices(d)] for a positive step: both bounds are clamped to the
    length of the axis. *)
Definition slice_lo (s : pslice) (d : nat) : nat := Nat.min (start s) d.

Definition slice_hi (s : pslice) (d : nat) : nat :=
  match stop s with
  | Some b => Nat.min b d
  | None => d
  end.

(** [len(range(lo, hi, step))]. *)
Definition slice_len (s : pslice) (d : nat) : nat :=
  (slice_hi s d - slice_lo s d + (step s - 1)) / step s.

(** The axis index selected at position [p] of a slice. *)
Definition slice_at (s : pslice) (d : nat) (p : nat) : nat :=
  slice_lo s d + p * step s.

(** The position of axis index [i] inside a slice, when it is selected. *)
Definition slice_pos (s : pslice) (d : nat) (i : nat) : option nat :=
  if (slice_lo s d <=? i) && (i <? slice_hi s d)
     && ((i - slice_lo s d) mod step s =? 0)
  then Some ((i - slice_lo s d) / step s)
  else None.

Module torch.
Section Primitives.
Context {A : Type} `{dtype : Dtype A}.

Definition get (t : tensor A) (n c h w : nat) : A :=
  nth w (nth h (nth c (nth n (data t) []) []) []) zero.

(** The tensor of a given shape whose element at [n, c, h, w] is
    [f n c h w]. *)
Definition tabulate (sh : shape) (f : nat -> nat -> nat -> nat -> A)
    : tensor A :=
  let '(N, C, H, W) := sh in
  Tensor sh
    (map (fun n =>
      map (fun c =>
        map (fun h =>
          map (fun w => f n c h w) (seq 0 W)) (seq 0 H)) (seq 0 C))
      (seq 0 N)).

Definition well_formed (t : tensor A) : bool :=
  let '(N, C, H, W) := size t in
  (List.length (data t) =? N)
  && forallb (fun img =>
       (List.length img =? C)
       && forallb (fun chan =>
            (List.length chan =? H)
            && forallb (fun row => List.length row =? W) chan) img) (data t).

(** [torch.zeros((N, C, H, W))]. *)
Definition zeros (sh : shape) : tensor A :=
  tabulate sh (fun _ _ _ _ => zero).

(** [torch.empty(N, C, H, W).fill_(v)]: the uninitialised storage is
    overwritten everywhere. *)
Definition empty_fill_ (sh : shape) (v : A) : tensor A :=
  tabulate sh (fun _ _ _ _ => v).

(** [v.view(N, C, H, W)] of a one-dimensional tensor: the element count
    must be preserved; elements are laid out in row-major order. *)
Definition view (v : list A) (sh : shape) : result (tensor A) :=
  let '(N, C, H, W) := sh in
  if List.length v =? N * C * H * W
  then Ok (tabulate sh (fun n c h w =>
             nth (((n * C + c) * H + h) * W + w) v zero))
  else Raise (RuntimeError "shape is invalid for input of this size").

(** [t.repeat(rn, rc, rh, rw)]: tiles [t] along every axis. *)
Definition repeat (t : tensor A) (reps : shape) : tensor A :=
  let '(N, C, H, W) := size t in
  let '(rn, rc, rh, rw) := reps in
  tabulate (N * rn, C * rc, H * rh, W * rw)
    (fun n c h w => get t (n mod N) (c mod C) (h mod H) (w mod W)).

Definition slices : Type := (pslice * pslice * pslice * pslice)%type.

Definition steps_positive (sl : slices) : bool :=
  let '(sn, sc, sh, sw) := sl in
  (0 <? step sn) && (0 <? step sc) && (0 <? step sh) && (0 <? step sw).

Definition sliced_shape (sl : slices) (sz : shape) : shape :=
  let '(sn, sc, sh, sw) := sl in
  let '(N, C, H, W) := sz in
  (slice_len sn N, slice_len sc C, slice_len sh H, slice_len sw W).

(** [t[sn, sc, sh, sw]] with four slices. *)
Definition getitem (t : tensor A) (sl : slices) : result (tensor A) :=
  if steps_positive sl then
    let '(sn, sc, sh, sw) := sl in
    let '(N, C, H, W) := size t in
    Ok (tabulate (sliced_shape sl (size t))
          (fun n c h w =>
             get t (slice_at sn N n) (slice_at sc C c)
                   (slice_at sh H h) (slice_at sw W w)))
  else Raise (ValueError "step must be greater than zero").

(** Whether a value of shape [src] can be expanded to shape [dst]: every
    axis has the same length or length one in [src]. *)
Definition expandable (src dst : shape) : bool :=
  let '(sN, sC, sH, sW) := src in
  let '(dN, dC, dH, dW) := dst in
  ((sN =? dN) || (sN =? 1)) && ((sC =? dC) || (sC =? 1))
  && ((sH =? dH) || (sH =? 1)) && ((sW =? dW) || (sW =? 1)).

(** The index read on an axis of the value when it is expanded. *)
Definition expand_index (srcdim p : nat) : nat :=
  if srcdim =? 1 then 0 else p.

(** [t[sn, sc, sh, sw] = value]: the value is expanded to the shape of
    the selected view and copied into it; the other elements of [t] are
    kept. *)
Definition setitem (t : tensor A) (sl : slices) (value : tensor A)
    : result (tensor A) :=
  if steps_positive sl then
    if expandable (size value) (sliced_shape sl (size t)) then
      let '(sn, sc, sh, sw) := sl in
      let '(N, C, H, W) := size t in
      let '(vN, vC, vH, vW) := size value in
      Ok (tabulate (size t)
            (fun n c h w =>
               match slice_pos sn N n, slice_pos sc C c,
                     slice_pos sh H h, slice_pos sw W w with
               | Some pn, Some pc, Some ph, Some pw =>
                   get value (expand_index vN pn) (expand_index vC pc)
                             (expand_index vH ph) (expand_index vW pw)
               | _, _, _, _ => get t n c h w
               end))
    else Raise (RuntimeError
      "The expanded size of the tensor must match the existing size at non-singleton dimension")
  else Raise (ValueError "step must be greater than zero").

(** [t.to(dtype)], with the conversion [f] of the elements. *)
Definition convert {R : Type} (f : A -> R) (t : tensor A) : tensor R :=
  Tensor (size t) (map (map (map (map f))) (data t)).

End Primitives.

Section Promotion.
Context {A B R : Type} `{dtype_a : Dtype A} `{dtype_b : Dtype B}
  `{promotion : Promote A B R}.

(** [torch.cat((a, b), 1)]: the result has the promoted element type, and
    the elements of both tensors are converted to it. *)
Definition cat (a : tensor A) (b : tensor B) : result (tensor R) :=
  let '(aN, aC, aH, aW) := size a in
  let '(bN, bC, bH, bW) := size b in
  if (aN =? bN) && (aH =? bH) && (aW =? bW) then
    Ok (tabulate (aN, aC + bC, aH, aW)
          (fun n c h w =>
             if c <? aC then promote_l promotion (get a n c h w)
             else promote_r promotion (get b n (c - aC) h w)))
  else Raise (RuntimeError
    "Sizes of tensors must match except in dimension 1").

End Promotion.
End torch.

(** ** [denoising/functions.py] *)

Section Functions.
Context {A : Type} `{dtype : Dtype A}.

(** The table of offsets that each of the three functions binds to its
    local name [idxL]. *)
Definition idxL : list (list nat) := [[0; 0]; [0; 1]; [1; 0]; [1; 1]].

(** [idxL[idx][j]]. *)
Definition idxL_at (idx j : nat) : result nat :=
  row <- subscript idxL idx ;; subscript row j.

(** The element type [B] of the noise levels is independent of the element
    type [A] of the images; [R] is the type both are promoted to. *)
Context {B R : Type} `{noise_dtype : Dtype B}
  `{promotion : Promote B A R}.

(** [concatenate_input_noise_map(input, noise_sigma)]. The noise levels
    are a one-dimensional tensor. The features are built with the element
    type of [input] and the noise map keeps that of [noise_sigma];
    [torch.cat] converts both to the promoted type. Both tensors are on
    one device. In each assignment the right-hand side is evaluated before
    the target. *)
Definition concatenate_input_noise_map (input : tensor A)
    (noise_sigma : list B) : result (tensor R) :=
  let '(N, C, H, W) := size input in
  let sca := 2 in
  let sca2 := sca * sca in
  let Cout := sca2 * C in
  let Hout := H / sca in
  let Wout := W / sca in
  let downsampledfeatures :=
    torch.empty_fill_ (N, Cout, Hout, Wout) zero in
  noise_view <- torch.view noise_sigma (N, 1, 1, 1) ;;
  let noise_map := torch.repeat noise_view (1, C, Hout, Wout) in
  downsampledfeatures <-
    for_range sca2 (fun idx downsampledfeatures =>
      r <- idxL_at idx 0 ;;
      c <- idxL_at idx 1 ;;
      patch <- torch.getitem input
        (slice_all, slice_all, PSlice r None sca, PSlice c None sca) ;;
      torch.setitem downsampledfeatures
        (slice_all, PSlice idx (Some Cout) sca2, slice_all, slice_all)
        patch) downsampledfeatures ;;
  torch.cat noise_map downsampledfeatures.

End Functions.

Module UpSampleFeaturesFunction.
Section Methods.
Context {A : Type} `{dtype : Dtype A}.

(** [forward(ctx, input)]; the context [ctx] is not used by the body. The
    [assert] statement raises when its condition is false. *)
Definition forward (input : tensor A) : result (tensor A) :=
  let '(N, Cin, Hin, Win) := size input in
  let sca := 2 in
  let sca2 := sca * sca in
  let Cout := Cin / sca2 in
  let Hout := Hin * sca in
  let Wout := Win * sca in
  if negb (Cin mod sca2 =? 0) then
    Raise (AssertionError
      "Invalid input dimensions: number of channels should be divisible by 4")
  else
    let result := torch.zeros (N, Cout, Hout, Wout) in
    result <-
      for_range sca2 (fun idx result =>
        planes <- torch.getitem input
          (slice_all, PSlice idx (Some Cin) sca2, slice_all, slice_all) ;;
        r <- idxL_at idx 0 ;;
        c <- idxL_at idx 1 ;;
        torch.setitem result
          (slice_all, slice_all, PSlice r None sca, PSlice c None sca)
          planes) result ;;
    Ok result.

(** [backward(ctx, grad_output)]; the context [ctx] is not used. *)
Definition backward (grad_output : tensor A) : result (tensor A) :=
  let '(N, Cg_out, Hg_out, Wg_out) := size grad_output in
  let sca := 2 in
  let sca2 := sca * sca in
  let Cg_in := sca2 * Cg_out in
  let Hg_in := Hg_out / sca in
  let Wg_in := Wg_out / sca in
  let grad_input := torch.zeros (N, Cg_in, Hg_in, Wg_in) in
  grad_input <-
    for_range sca2 (fun idx grad_input =>
      r <- idxL_at idx 0 ;;
      c <- idxL_at idx 1 ;;
      patch <- torch.getitem grad_output
        (slice_all, slice_all, PSlice r None sca, PSlice c None sca) ;;
      torch.setitem grad_input
        (slice_all, PSlice idx (Some Cg_in) sca2, slice_all, slice_all)
        patch) grad_input ;;
  Ok grad_input.

End Methods.
End UpSampleFeaturesFunction.

(** ** The loops and their results in closed form *)

Section ClosedFormDefinitions.
Context {A : Type} `{dtype : Dtype A}.

(** The body shared, up to the names of its variables, by the loop of
    [concatenate_input_noise_map] and the loop of [backward]. *)
Definition deinterleave_body (x : tensor A) (Cout : nat)
    (idx : nat) (acc : tensor A) : result (tensor A) :=
  r <- idxL_at idx 0 ;;
  c <- idxL_at idx 1 ;;
  patch <- torch.getitem x
    (slice_all, slice_all, PSlice r None 2, PSlice c None 2) ;;
  torch.setitem acc
    (slice_all, PSlice idx (Some Cout) 4, slice_all, slice_all) patch.

(** The body of the loop of [forward]. *)
Definition interleave_body (x : tensor A) (Cin : nat)
    (idx : nat) (acc : tensor A) : result (tensor A) :=
  planes <- torch.getitem x
    (slice_all, PSlice idx (Some Cin) 4, slice_all, slice_all) ;;
  r <- idxL_at idx 0 ;;
  c <- idxL_at idx 1 ;;
  torch.setitem acc
    (slice_all, slice_all, PSlice r None 2, PSlice c None 2) planes.

Definition deinterleaved (x : tensor A) : tensor A :=
  let '(N, C, H, W) := size x in
  torch.tabulate (N, 4 * C, H / 2, W / 2)
    (fun n c h w =>
       torch.get x n (c / 4)
         (2 * h + (c mod 4) / 2) (2 * w + (c mod 4) mod 2)).

Definition interleaved (x : tensor A) : tensor A :=
  let '(N, Cin, Hin, Win) := size x in
  torch.tabulate (N, Cin / 4, Hin * 2, Win * 2)
    (fun n c h w =>
       torch.get x n (2 * (h mod 2) + w mod 2 + 4 * c) (h / 2) (w / 2)).

Context {B R : Type} `{noise_dtype : Dtype B}
  `{promotion : Promote B A R}.

Definition folded (x : tensor A) (noise_sigma : list B) : tensor R :=
  let '(N, C, H, W) := size x in
  torch.tabulate (N, 5 * C, H / 2, W / 2)
    (fun n c h w =>
       if c <? C then promote_l promotion (nth n noise_sigma zero)
       else promote_r promotion
              (torch.get x n ((c - C) / 4)
                 (2 * h + ((c - C) mod 4) / 2)
                 (2 * w + ((c - C) mod 4) mod 2))).

End ClosedFormDefinitions.

(** ** Sums and inner products *)

Section InnerProduct.
Context {A : Type} `{dtype : Dtype A}.
Variables add mul : A -> A -> A.

(** The sum of [f 0], ..., [f (k - 1)]. *)
Fixpoint bigsum (k : nat) (f : nat -> A) : A :=
  match k with
  | 0 => zero
  | S k' => add (bigsum k' f) (f k')
  end.

(** The inner product of two tensors of the shape of the first: the sum of
    the products of their elements at equal indices. *)
Definition inner (a b : tensor A) : A :=
  let '(N, C, H, W) := size a in
  bigsum N (fun n =>
    bigsum C (fun c =>
      bigsum H (fun h =>
        bigsum W (fun w =>
          mul (torch.get a n c h w) (torch.get b n c h w))))).

End InnerProduct.

(** ** The elements of a tensor, in row-major order *)

(** [t.flatten().tolist()]. *)
Definition elements {A : Type} (t : tensor A) : list A :=
  List.concat (List.concat (List.concat (data t))).

(** Counting with natural numbers. *)
Definition Dtype_nat : Dtype nat := {| zero := 0 |}.

(** ** Concrete tensors *)

(** The 2x2 image of the worked example: one image, one channel. *)
Definition block_2x2 : tensor Z :=
  Tensor (1, 1, 2, 2) [[[[1; 2]; [3; 4]]]]%Z.

(** One image, one channel, a single row of two pixels. *)
Definition height_1_batch : tensor Z :=
  Tensor (1, 1, 1, 2) [[[[1; 2]]]]%Z.

(** Two images of one channel, 2x2 each, and a second batch that shares
    image 0 with the first and differs in image 1. *)
Definition two_images : tensor Z :=
  Tensor (2, 1, 2, 2) [[[[1; 2]; [3; 4]]]; [[[5; 6]; [7; 8]]]]%Z.

Definition two_images' : tensor Z :=
  Tensor (2, 1, 2, 2) [[[[1; 2]; [3; 4]]]; [[[9; 9]; [9; 9]]]]%Z.

(** Two images of four channels, 1x1 each, and a variant of image 1. *)
Definition two_stacks : tensor Z :=
  Tensor (2, 4, 1, 1)
    [[[[1]]; [[2]]; [[3]]; [[4]]]; [[[5]]; [[6]]; [[7]]; [[8]]]]%Z.

Definition two_stacks' : tensor Z :=
  Tensor (2, 4, 1, 1)
    [[[[1]]; [[2]]; [[3]]; [[4]]]; [[[0]]; [[0]]; [[0]]; [[0]]]]%Z.

(** One image, one channel, three rows of two pixels. *)
Definition height_3_batch : tensor Z :=
  Tensor (1, 1, 3, 2) [[[[1; 2]; [3; 4]; [5; 6]]]]%Z.

(** Two images, one channel, a single column of two pixels. *)
Definition width_1_batch : tensor Z :=
  Tensor (2, 1, 2, 1) [[[[1]; [2]]]; [[[3]; [4]]]]%Z.

(** One image of three channels, 2x2 each. *)
Definition rgb_2x2 : tensor Z :=
  Tensor (1, 3, 2, 2)
    [[[[1; 2]; [3; 4]]; [[5; 6]; [7; 8]]; [[9; 10]; [11; 12]]]]%Z.

(** An [int64] image holding 2^24 + 1, which no [float32] represents, and
    a [float32] image; the [float32] noise level 0.5 and the [int64] noise
    level 2^24 + 1. *)
Definition int64_block : tensor Z :=
  Tensor (1, 1, 2, 2) [[[[16777217; 2]; [3; 4]]]]%Z.

Definition float32_block : tensor spec_float :=
  Tensor (1, 1, 2, 2)
    [[[[float32_of_int64 1; float32_of_int64 2];
       [float32_of_int64 3; float32_of_int64 4]]]].

Definition float32_half : spec_float := S754_finite false 8388608 (-24).

Definition int64_block' : tensor Z :=
  Tensor (1, 1, 2, 2) [[[[5; 6]; [7; 8]]]]%Z.

Definition int64_noise : list Z := [16777217%Z].

(** One image of three channels, 1x1 each. *)
Definition three_channels : tensor Z :=
  Tensor (1, 3, 1, 1) [[[[1]]; [[2]]; [[3]]]]%Z.

(** ** Python strings and [os.path]

    A Python [str] is modelled by the sequence of its code units; the
    functions below only look for the ASCII characters [/] and [.], so
    they cut a string at the same places. *)

Module str.

(** [s.rfind(c)] for a one-character [c]: the highest index at which [c]
    occurs in [s], or -1. *)
Fixpoint rfind (c : ascii) (s : string) : Z :=
  match s with
  | EmptyString => (-1)%Z
  | String a s' =>
      let r := rfind c s' in
      if (0 <=? r)%Z then (r + 1)%Z
      else if Ascii.eqb a c then 0%Z else (-1)%Z
  end.

(** [s[:n]] and [s[n:]] for a non-negative [n]. *)
Definition upto (n : nat) (s : string) : string := substring 0 n s.

Definition from (n : nat) (s : string) : string :=
  substring n (String.length s - n) s.

(** [s.startswith(c)] and [s.endswith(c)] for a one-character [c]. *)
Definition startswith (c : ascii) (s : string) : bool :=
  match s with
  | EmptyString => false
  | String a _ => Ascii.eqb a c
  end.

Fixpoint endswith (c : ascii) (s : string) : bool :=
  match s with
  | EmptyString => false
  | String a EmptyString => Ascii.eqb a c
  | String _ s' => endswith c s'
  end.

(** [s.split(c)] for a one-character separator [c]. *)
Fixpoint split (c : ascii) (s : string) : list string :=
  match s with
  | EmptyString => [EmptyString]
  | String a s' =>
      if Ascii.eqb a c then EmptyString :: split c s'
      else match split c s' with
           | piece :: pieces => String a piece :: pieces
           | [] => [String a EmptyString]
           end
  end.

(** [c in s] for a one-character [c]. *)
Fixpoint contains (c : ascii) (s : string) : bool :=
  match s with
  | EmptyString => false
  | String a s' => Ascii.eqb a c || contains c s'
  end.

(** [str(n)], and [{n}] in an f-string, for a non-negative [int]. *)
Definition of_nat (n : nat) : string :=
  NilEmpty.string_of_uint (Nat.to_uint n).

End str.


(** [posixpath]: the separator is [/], there is no alternative separator,
    and the extension separator is [.]. *)
Module os_path.

(** The loop of [genericpath._splitext] that skips the leading dots of the
    file name: [n] is the number of indices left before [dotIndex]. *)
Fixpoint splitext_scan (p : string) (dotIndex : nat) (n : nat)
    (filenameIndex : nat) : string * string :=
  match n with
  | 0 => (p, EmptyString)
  | S n' =>
      if negb (String.eqb (substring filenameIndex 1 p) ".")
      then (str.upto dotIndex p, str.from dotIndex p)
      else splitext_scan p dotIndex n' (filenameIndex + 1)
  end.

(** [os.path.splitext(p)]. *)
Definition splitext (p : string) : string * string :=
  let sepIndex := str.rfind "/" p in
  let dotIndex := str.rfind "." p in
  if (dotIndex >? sepIndex)%Z then
    let filenameIndex := (sepIndex + 1)%Z in
    splitext_scan p (Z.to_nat dotIndex)
      (Z.to_nat (dotIndex - filenameIndex)) (Z.to_nat filenameIndex)
  else (p, EmptyString).

(** [os.path.join(a, b)] with one component [b]. *)
Definition join (a b : string) : string :=
  if str.startswith "/" b then b
  else if String.eqb a EmptyString || str.endswith "/" a
       then String.append a b
       else String.append a (String.append "/" b).

End os_path.

(** ** [webui.py] *)

Module webui.
Local Open Scope string_scope.

Section FileSystem.
(** [os.path.exists] on the file system as it is during the call. *)
Variable path_exists : string -> bool.

(** The [while] loop of [get_unique_save_path]; [None] when it has not
    ended after [fuel] tests of its condition. *)
Fixpoint get_unique_save_path_loop (fuel : nat) (base ext : string)
    (save_path : string) (counter : nat) : option string :=
  match fuel with
  | 0 => None
  | S fuel' =>
      if path_exists save_path then
        get_unique_save_path_loop fuel' base ext
          (String.append base
             (String.append "_" (String.append (str.of_nat counter) ext)))
          (counter + 1)
      else Some save_path
  end.

Definition get_unique_save_path (fuel : nat) (save_path : string)
    : option string :=
  let '(base, ext) := os_path.splitext save_path in
  let counter := 1 in
  get_unique_save_path_loop fuel base ext save_path counter.

End FileSystem.

(** The paths [get_unique_save_path] tests, in order: [save_path] itself,
    then [base_1ext], [base_2ext], ... *)
Definition numbered_path (save_path : string) (k : nat) : string :=
  match k with
  | 0 => save_path
  | S _ =>
      let '(base, ext) := os_path.splitext save_path in
      String.append base
        (String.append "_" (String.append (str.of_nat k) ext))
  end.

(** A file system in which exactly the listed paths exist. *)
Definition listed (files : list string) (path : string) : bool :=
  existsb (String.eqb path) files.

(** [get_realesrgan_command()], given the value of [platform.system()]. *)
Definition get_realesrgan_command (platform_system : string) : string :=
  if String.eqb platform_system "Windows"
  then "realesrgan/realesrgan-ncnn-vulkan.exe"
  else "realesrgan/realesrgan-ncnn-vulkan".

Section Processes.
(** The state of the machine, the value of [platform.system()] and
    [subprocess.run], which runs a command and may raise. *)
Variable world : Type.
Variable platform_system : string.
Variable subprocess_run : list string -> world -> result world.

Definition upscale_image (input_path output_path model_name
    output_format : string) (scale : nat) (w : world)
    : result (string * world) :=
  let '(base, _) := os_path.splitext output_path in
  let output_path_with_format :=
    String.append base (String.append "." output_format) in
  let command :=
    [ get_realesrgan_command platform_system;
      "-i"; input_path;
      "-o"; output_path_with_format;
      "-s"; str.of_nat scale;
      "-n"; model_name;
      "-f"; output_format ] in
  w' <- subprocess_run command w ;;
  Ok (output_path_with_format, w').

End Processes.

End webui.

(** ** [webui_utils/download.py] *)

Module download.

Section World.
(** The state of the machine and of the network, and the calls that read
    or change it; each of the last three may raise. *)
Variable world : Type.
Variable content : Type.
Variable path_exists : world -> string -> bool.
Variable makedirs : string -> world -> result world.
Variable requests_get : string -> world -> result (content * world).
Variable write_binary : string -> content -> world -> result world.


End World.

End download.

(** ** Concrete machines *)

(** A machine that records the commands it runs, most recent first. *)
Definition recording_run (command : list string)
    (log : list (list string)) : result (list (list string)) :=
  Ok (command :: log).




(** ** Proof tactics *)

Ltac slice_unfold :=
  unfold slice_len, slice_at, slice_pos, slice_lo, slice_hi, slice_all;
  cbn [start stop step].

(** Case analysis on every comparison of the goal, closed by linear
    arithmetic. *)
Ltac bool_cases :=
  repeat match goal with
  | |- context [?a <=? ?b] => destruct (Nat.leb_spec a b)
  | |- context [?a <? ?b] => destruct (Nat.ltb_spec a b)
  | |- context [?a =? ?b] => destruct (Nat.eqb_spec a b)
  end;
  cbn [andb orb negb];
  solve [ reflexivity | lia | f_equal; lia ].

(** ** Basic facts about the tensor representation *)

Section ListFacts.
Context {B : Type}.

Lemma nth_map_seq (g : nat -> B) (k i : nat) (d : B) :
  i < k -> nth i (map g (seq 0 k)) d = g i.
Proof.
  intros Hi.
  rewrite (nth_indep _ d (g 0)) by (rewrite length_map, length_seq; exact Hi).
  rewrite map_nth, seq_nth by exact Hi. reflexivity.
Qed.

Lemma map_nth_seq_id (l : list B) (d : B) :
  map (fun i => nth i l d) (seq 0 (List.length l)) = l.
Proof.
  apply (nth_ext _ _ d d).
  - now rewrite length_map, length_seq.
  - intros i Hi. rewrite length_map, length_seq in Hi.
    now apply nth_map_seq.
Qed.

Lemma map_seq_ext (g g' : nat -> B) (k : nat) :
  (forall i, i < k -> g i = g' i) -> map g (seq 0 k) = map g' (seq 0 k).
Proof.
  intros Hg. apply map_ext_in. intros i Hi.
  apply in_seq in Hi. apply Hg. lia.
Qed.

Lemma forallb_map_seq (p : B -> bool) (g : nat -> B) (k : nat) :
  (forall i, i < k -> p (g i) = true) -> forallb p (map g (seq 0 k)) = true.
Proof.
  intros Hp. apply forallb_forall. intros x Hx.
  apply in_map_iff in Hx. destruct Hx as [i [<- Hi]].
  apply in_seq in Hi. apply Hp. lia.
Qed.

Lemma forallb_nth (p : B -> bool) (l : list B) (i : nat) (d : B) :
  forallb p l = true -> i < List.length l -> p (nth i l d) = true.
Proof.
  intros Hall Hi. rewrite forallb_forall in Hall.
  apply Hall. now apply nth_In.
Qed.

End ListFacts.

Section TensorFacts.
Context {A : Type} `{dtype : Dtype A}.

Lemma size_tabulate (sh : shape) (f : nat -> nat -> nat -> nat -> A) :
  size (torch.tabulate sh f) = sh.
Proof. destruct sh as [[[N C] H] W]. reflexivity. Qed.

Lemma get_tabulate (N C H W : nat) (f : nat -> nat -> nat -> nat -> A)
    (n c h w : nat) :
  n < N -> c < C -> h < H -> w < W ->
  torch.get (torch.tabulate (N, C, H, W) f) n c h w = f n c h w.
Proof.
  intros Hn Hc Hh Hw. unfold torch.get, torch.tabulate. cbn [data].
  now rewrite !nth_map_seq.
Qed.

Lemma well_formed_tabulate (sh : shape)
    (f : nat -> nat -> nat -> nat -> A) :
  torch.well_formed (torch.tabulate sh f) = true.
Proof.
  destruct sh as [[[N C] H] W].
  unfold torch.well_formed, torch.tabulate. cbn [size data].
  rewrite length_map, length_seq, Nat.eqb_refl. cbn [andb].
  apply forallb_map_seq. intros n _.
  rewrite length_map, length_seq, Nat.eqb_refl. cbn [andb].
  apply forallb_map_seq. intros c _.
  rewrite length_map, length_seq, Nat.eqb_refl. cbn [andb].
  apply forallb_map_seq. intros h _.
  rewrite length_map, length_seq. apply Nat.eqb_refl.
Qed.

Lemma tabulate_ext (N C H W : nat)
    (f g : nat -> nat -> nat -> nat -> A) :
  (forall n c h w, n < N -> c < C -> h < H -> w < W ->
     f n c h w = g n c h w) ->
  torch.tabulate (N, C, H, W) f = torch.tabulate (N, C, H, W) g.
Proof.
  intros Hfg. unfold torch.tabulate. f_equal.
  apply map_seq_ext. intros n Hn.
  apply map_seq_ext. intros c Hc.
  apply map_seq_ext. intros h Hh.
  apply map_seq_ext. intros w Hw.
  now apply Hfg.
Qed.

(** A well-formed tensor is the table of its own elements. *)
Lemma tabulate_get (t : tensor A) :
  torch.well_formed t = true -> torch.tabulate (size t) (torch.get t) = t.
Proof.
  destruct t as [[[[N C] H] W] d].
  unfold torch.well_formed, torch.tabulate, torch.get. cbn [size data].
  intros Hwf. apply andb_prop in Hwf. destruct Hwf as [HN Himgs].
  apply Nat.eqb_eq in HN. subst N. f_equal.
  transitivity (map (fun n => nth n d []) (seq 0 (List.length d)));
    [ | apply map_nth_seq_id ].
  apply map_seq_ext. intros n Hn.
  pose proof (forallb_nth _ _ [] Himgs Hn) as Himg. cbv beta in Himg.
  apply andb_prop in Himg. destruct Himg as [HC Hchans].
  apply Nat.eqb_eq in HC. subst C.
  transitivity (map (fun c => nth c (nth n d []) [])
                    (seq 0 (List.length (nth n d []))));
    [ | apply map_nth_seq_id ].
  apply map_seq_ext. intros c Hc.
  pose proof (forallb_nth _ _ [] Hchans Hc) as Hchan. cbv beta in Hchan.
  apply andb_prop in Hchan. destruct Hchan as [HH Hrows].
  apply Nat.eqb_eq in HH. subst H.
  transitivity (map (fun h => nth h (nth c (nth n d []) []) [])
                    (seq 0 (List.length (nth c (nth n d []) []))));
    [ | apply map_nth_seq_id ].
  apply map_seq_ext. intros h Hh.
  pose proof (forallb_nth _ _ [] Hrows Hh) as Hrow. cbv beta in Hrow.
  apply Nat.eqb_eq in Hrow. subst W.
  apply map_nth_seq_id.
Qed.

(** Two well-formed tensors of one shape with the same elements are
    equal. *)
Lemma tensor_ext (a b : tensor A) (N C H W : nat) :
  torch.well_formed a = true -> torch.well_formed b = true ->
  size a = (N, C, H, W) -> size b = (N, C, H, W) ->
  (forall n c h w, n < N -> c < C -> h < H -> w < W ->
     torch.get a n c h w = torch.get b n c h w) ->
  a = b.
Proof.
  intros Ha Hb Hsa Hsb Hget.
  rewrite <- (tabulate_get a Ha), <- (tabulate_get b Hb), Hsa, Hsb.
  now apply tabulate_ext.
Qed.

End TensorFacts.

Section Conversion.
Context {A R : Type} `{dtype : Dtype A} `{result_dtype : Dtype R}.

Lemma convert_of_tabulate (f : A -> R) (N C H W : nat)
    (g : nat -> nat -> nat -> nat -> A) :
  torch.convert f (torch.tabulate (N, C, H, W) g) =
  torch.tabulate (N, C, H, W) (fun n c h w => f (g n c h w)).
Proof.
  unfold torch.convert, torch.tabulate. cbn [size data]. f_equal.
  rewrite map_map. apply map_ext. intros n.
  rewrite map_map. apply map_ext. intros c.
  rewrite map_map. apply map_ext. intros h.
  now rewrite map_map.
Qed.

(** Converting a well-formed tensor converts each of its elements. *)
Lemma convert_tabulate (f : A -> R) (x : tensor A) (N C H W : nat) :
  torch.well_formed x = true -> size x = (N, C, H, W) ->
  torch.convert f x =
  torch.tabulate (N, C, H, W) (fun n c h w => f (torch.get x n c h w)).
Proof.
  intros Hwf Hsz. rewrite <- (tabulate_get x Hwf) at 1. rewrite Hsz.
  apply convert_of_tabulate.
Qed.

End Conversion.

(** ** The slices the source uses *)

Lemma slice_len_all (d : nat) : slice_len slice_all d = d.
Proof. slice_unfold. lia. Qed.

Lemma slice_at_all (d p : nat) : slice_at slice_all d p = p.
Proof. slice_unfold. lia. Qed.

Lemma slice_pos_all (d i : nat) : i < d -> slice_pos slice_all d i = Some i.
Proof. intros Hi. slice_unfold. bool_cases. Qed.

(** [r::2] on an axis of even length. *)
Lemma slice_len_parity (r d : nat) :
  r < 2 -> d mod 2 = 0 -> slice_len (PSlice r None 2) d = d / 2.
Proof. intros Hr Hd. slice_unfold. lia. Qed.

Lemma slice_at_parity (r d p : nat) :
  r < 2 -> d mod 2 = 0 -> p < d / 2 ->
  slice_at (PSlice r None 2) d p = 2 * p + r.
Proof. intros Hr Hd Hp. slice_unfold. lia. Qed.

Lemma slice_pos_parity (r d i : nat) :
  r < 2 -> d mod 2 = 0 -> i < d ->
  slice_pos (PSlice r None 2) d i =
  if i mod 2 =? r then Some (i / 2) else None.
Proof. intros Hr Hd Hi. slice_unfold. bool_cases. Qed.

(** [k:4*C:4] on the channel axis of length [4*C]. *)
Lemma slice_len_chan (k C : nat) :
  k < 4 -> slice_len (PSlice k (Some (4 * C)) 4) (4 * C) = C.
Proof. intros Hk. slice_unfold. lia. Qed.

Lemma slice_at_chan (k C p : nat) :
  k < 4 -> p < C -> slice_at (PSlice k (Some (4 * C)) 4) (4 * C) p = k + 4 * p.
Proof. intros Hk Hp. slice_unfold. lia. Qed.

Lemma slice_pos_chan (k C i : nat) :
  k < 4 -> i < 4 * C ->
  slice_pos (PSlice k (Some (4 * C)) 4) (4 * C) i =
  if i mod 4 =? k then Some (i / 4) else None.
Proof. intros Hk Hi. slice_unfold. bool_cases. Qed.

Lemma expand_index_in_range (d p : nat) :
  p < d -> torch.expand_index d p = p.
Proof.
  intros Hp. unfold torch.expand_index.
  destruct (Nat.eqb_spec d 1); lia.
Qed.

Lemma expandable_refl (sh : shape) : torch.expandable sh sh = true.
Proof.
  destruct sh as [[[N C] H] W]. unfold torch.expandable.
  now rewrite !Nat.eqb_refl.
Qed.

(** ** What one slice read and one slice assignment compute *)

Section SliceAccess.
Context {A : Type} `{dtype : Dtype A}.

Lemma getitem_ok (t : tensor A) (N C H W : nat) (sn sc sh sw : pslice) :
  size t = (N, C, H, W) ->
  torch.steps_positive (sn, sc, sh, sw) = true ->
  torch.getitem t (sn, sc, sh, sw) =
  Ok (torch.tabulate
        (slice_len sn N, slice_len sc C, slice_len sh H, slice_len sw W)
        (fun n c h w =>
           torch.get t (slice_at sn N n) (slice_at sc C c)
                       (slice_at sh H h) (slice_at sw W w))).
Proof.
  intros Hsz Hpos. unfold torch.getitem. rewrite Hpos, Hsz. reflexivity.
Qed.

Lemma setitem_ok (t value : tensor A) (N C H W vN vC vH vW : nat)
    (sn sc sh sw : pslice) :
  size t = (N, C, H, W) ->
  size value = (vN, vC, vH, vW) ->
  torch.steps_positive (sn, sc, sh, sw) = true ->
  torch.expandable (vN, vC, vH, vW)
    (slice_len sn N, slice_len sc C, slice_len sh H, slice_len sw W)
  = true ->
  torch.setitem t (sn, sc, sh, sw) value =
  Ok (torch.tabulate (N, C, H, W)
        (fun n c h w =>
           match slice_pos sn N n, slice_pos sc C c,
                 slice_pos sh H h, slice_pos sw W w with
           | Some pn, Some pc, Some ph, Some pw =>
               torch.get value
                 (torch.expand_index vN pn) (torch.expand_index vC pc)
                 (torch.expand_index vH ph) (torch.expand_index vW pw)
           | _, _, _, _ => torch.get t n c h w
           end)).
Proof.
  intros Hsz Hvsz Hpos Hexp. unfold torch.setitem.
  rewrite Hpos, Hsz, Hvsz. cbn [torch.sliced_shape].
  rewrite Hexp. reflexivity.
Qed.

Lemma setitem_raises (t value : tensor A) (N C H W vN vC vH vW : nat)
    (sn sc sh sw : pslice) :
  size t = (N, C, H, W) ->
  size value = (vN, vC, vH, vW) ->
  torch.expandable (vN, vC, vH, vW)
    (slice_len sn N, slice_len sc C, slice_len sh H, slice_len sw W)
  = false ->
  fails (torch.setitem t (sn, sc, sh, sw) value).
Proof.
  intros Hsz Hvsz Hexp. unfold torch.setitem, fails.
  rewrite Hsz, Hvsz. cbn [torch.sliced_shape]. rewrite Hexp.
  destruct (torch.steps_positive (sn, sc, sh, sw)); eexists; reflexivity.
Qed.

End SliceAccess.

(** ** The two loops in closed form *)

Section Loops.
Context {A : Type} `{dtype : Dtype A}.

Lemma deinterleave_step (x : tensor A) (N C H W k : nat)
    (F : nat -> nat -> nat -> nat -> A) :
  size x = (N, C, H, W) -> H mod 2 = 0 -> W mod 2 = 0 -> k < 4 ->
  deinterleave_body x (4 * C) k
    (torch.tabulate (N, 4 * C, H / 2, W / 2) F) =
  Ok (torch.tabulate (N, 4 * C, H / 2, W / 2)
        (fun n c h w =>
           if c mod 4 =? k
           then torch.get x n (c / 4) (2 * h + k / 2) (2 * w + k mod 2)
           else F n c h w)).
Proof.
  intros Hsz HH HW Hk.
  assert (Hk4 : k = 0 \/ k = 1 \/ k = 2 \/ k = 3) by lia.
  destruct Hk4 as [-> | [-> | [-> | ->]]];
    unfold deinterleave_body;
    cbn [idxL_at idxL subscript nth_error bind];
    (erewrite getitem_ok; [ | exact Hsz | reflexivity ]); cbn [bind];
    (erewrite setitem_ok;
      [ | apply size_tabulate | apply size_tabulate | reflexivity
        | rewrite !slice_len_all, !slice_len_parity, slice_len_chan
            by (assumption || lia);
          apply expandable_refl ]);
    f_equal; apply tabulate_ext; intros n c h w Hn Hc Hh Hw;
    rewrite !slice_pos_all, slice_pos_chan by (assumption || lia);
    rewrite !slice_len_all, !slice_len_parity by (assumption || lia);
    (destruct (c mod 4 =? _) eqn:E;
      [ apply Nat.eqb_eq in E;
        rewrite !expand_index_in_range by lia;
        rewrite get_tabulate by lia;
        rewrite !slice_at_all, !slice_at_parity by (assumption || lia);
        f_equal; lia
      | now apply get_tabulate ]).
Qed.

Lemma expandable_eq (src dst : shape) :
  src = dst -> torch.expandable src dst = true.
Proof. intros ->. apply expandable_refl. Qed.

Lemma interleave_step (x : tensor A) (N Cq Hin Win k : nat)
    (F : nat -> nat -> nat -> nat -> A) :
  size x = (N, 4 * Cq, Hin, Win) -> k < 4 ->
  interleave_body x (4 * Cq) k
    (torch.tabulate (N, Cq, Hin * 2, Win * 2) F) =
  Ok (torch.tabulate (N, Cq, Hin * 2, Win * 2)
        (fun n c h w =>
           if (h mod 2 =? k / 2) && (w mod 2 =? k mod 2)
           then torch.get x n (k + 4 * c) (h / 2) (w / 2)
           else F n c h w)).
Proof.
  intros Hsz Hk.
  assert (Hk4 : k = 0 \/ k = 1 \/ k = 2 \/ k = 3) by lia.
  assert (HH : (Hin * 2) mod 2 = 0) by lia.
  assert (HW : (Win * 2) mod 2 = 0) by lia.
  destruct Hk4 as [-> | [-> | [-> | ->]]];
    unfold interleave_body;
    (erewrite getitem_ok; [ | exact Hsz | reflexivity ]);
    cbn [idxL_at idxL subscript nth_error bind];
    (erewrite setitem_ok;
      [ | apply size_tabulate | apply size_tabulate | reflexivity
        | rewrite !slice_len_all, !slice_len_parity, slice_len_chan
            by (assumption || lia);
          apply expandable_eq; repeat f_equal; lia ]);
    f_equal; apply tabulate_ext; intros n c h w Hn Hc Hh Hw;
    rewrite !slice_pos_all, !slice_pos_parity by (assumption || lia);
    rewrite !slice_len_all, slice_len_chan by lia;
    change (1 / 2) with 0; change (0 / 2) with 0;
    change (2 / 2) with 1; change (3 / 2) with 1;
    change (0 mod 2) with 0; change (1 mod 2) with 1;
    change (2 mod 2) with 0; change (3 mod 2) with 1;
    (destruct (h mod 2 =? _) eqn:Eh; cbn [andb];
      [ destruct (w mod 2 =? _) eqn:Ew;
        [ rewrite !expand_index_in_range by lia;
          rewrite get_tabulate by lia;
          rewrite !slice_at_all, slice_at_chan by lia;
          reflexivity
        | now apply get_tabulate ]
      | now apply get_tabulate ]).
Qed.

Lemma deinterleave_loop (x : tensor A) (N C H W : nat) :
  size x = (N, C, H, W) -> H mod 2 = 0 -> W mod 2 = 0 ->
  for_range 4 (deinterleave_body x (4 * C))
    (torch.tabulate (N, 4 * C, H / 2, W / 2) (fun _ _ _ _ => zero)) =
  Ok (deinterleaved x).
Proof.
  intros Hsz HH HW. unfold for_range. cbn [seq for_each].
  do 4 (rewrite (@deinterleave_step x N C H W _ _ Hsz HH HW) by lia;
        cbn [bind]).
  unfold deinterleaved. rewrite Hsz.
  f_equal. apply tabulate_ext. intros n c h w Hn Hc Hh Hw.
  assert (Hc4 : c mod 4 < 4) by lia.
  destruct (Nat.eqb_spec (c mod 4) 3) as [-> | E3]; [ reflexivity | ].
  destruct (Nat.eqb_spec (c mod 4) 2) as [-> | E2]; [ reflexivity | ].
  destruct (Nat.eqb_spec (c mod 4) 1) as [-> | E1]; [ reflexivity | ].
  destruct (Nat.eqb_spec (c mod 4) 0) as [-> | E0]; [ reflexivity | ].
  lia.
Qed.

Lemma interleave_loop (x : tensor A) (N Cq Hin Win : nat) :
  size x = (N, 4 * Cq, Hin, Win) ->
  for_range 4 (interleave_body x (4 * Cq))
    (torch.tabulate (N, Cq, Hin * 2, Win * 2) (fun _ _ _ _ => zero)) =
  Ok (torch.tabulate (N, Cq, Hin * 2, Win * 2)
        (fun n c h w =>
           torch.get x n (2 * (h mod 2) + w mod 2 + 4 * c)
             (h / 2) (w / 2))).
Proof.
  intros Hsz. unfold for_range. cbn [seq for_each].
  do 4 (rewrite (@interleave_step x N Cq Hin Win _ _ Hsz) by lia;
        cbn [bind]).
  f_equal. apply tabulate_ext. intros n c h w Hn Hc Hh Hw.
  assert (Hh2 : h mod 2 = 0 \/ h mod 2 = 1) by lia.
  assert (Hw2 : w mod 2 = 0 \/ w mod 2 = 1) by lia.
  destruct Hh2 as [-> | ->]; destruct Hw2 as [-> | ->]; reflexivity.
Qed.

End Loops.

(** ** The three functions in closed form *)

Section ClosedForms.
Context {A : Type} `{dtype : Dtype A}.
Context {B R : Type} `{noise_dtype : Dtype B}
  `{promotion : Promote B A R}.

Lemma concatenate_input_noise_map_unfold (x : tensor A)
    (noise_sigma : list B) (N C H W : nat) :
  size x = (N, C, H, W) ->
  concatenate_input_noise_map x noise_sigma =
  (noise_view <- torch.view noise_sigma (N, 1, 1, 1) ;;
   features <- for_range 4 (deinterleave_body x (4 * C))
     (torch.empty_fill_ (N, 4 * C, H / 2, W / 2) zero) ;;
   torch.cat (torch.repeat noise_view (1, C, H / 2, W / 2)) features).
Proof.
  intros Hsz. unfold concatenate_input_noise_map. rewrite Hsz.
  reflexivity.
Qed.

Lemma forward_unfold (x : tensor A) (N Cin Hin Win : nat) :
  size x = (N, Cin, Hin, Win) ->
  UpSampleFeaturesFunction.forward x =
  if negb (Cin mod 4 =? 0) then
    Raise (AssertionError
      "Invalid input dimensions: number of channels should be divisible by 4")
  else
    out <- for_range 4 (interleave_body x Cin)
      (torch.zeros (N, Cin / 4, Hin * 2, Win * 2)) ;;
    Ok out.
Proof.
  intros Hsz. unfold UpSampleFeaturesFunction.forward. rewrite Hsz.
  reflexivity.
Qed.

Lemma backward_unfold (g : tensor A) (N C H W : nat) :
  size g = (N, C, H, W) ->
  UpSampleFeaturesFunction.backward g =
  (grad_input <- for_range 4 (deinterleave_body g (4 * C))
     (torch.zeros (N, 4 * C, H / 2, W / 2)) ;;
   Ok grad_input).
Proof.
  intros Hsz. unfold UpSampleFeaturesFunction.backward. rewrite Hsz.
  reflexivity.
Qed.

Lemma view_noise (noise_sigma : list B) :
  torch.view noise_sigma (List.length noise_sigma, 1, 1, 1) =
  Ok (torch.tabulate (List.length noise_sigma, 1, 1, 1)
        (fun n c h w =>
           nth (((n * 1 + c) * 1 + h) * 1 + w) noise_sigma zero)).
Proof.
  unfold torch.view.
  replace (List.length noise_sigma * 1 * 1 * 1)
    with (List.length noise_sigma) by lia.
  now rewrite Nat.eqb_refl.
Qed.

Lemma view_noise_raises (noise_sigma : list B) (N : nat) :
  List.length noise_sigma <> N ->
  fails (torch.view noise_sigma (N, 1, 1, 1)).
Proof.
  intros Hlen. unfold torch.view, fails.
  destruct (Nat.eqb_spec (List.length noise_sigma) (N * 1 * 1 * 1)).
  - lia.
  - eexists. reflexivity.
Qed.

Theorem concatenate_input_noise_map_ok (x : tensor A)
    (noise_sigma : list B) (N C H W : nat) :
  size x = (N, C, H, W) -> H mod 2 = 0 -> W mod 2 = 0 ->
  List.length noise_sigma = N ->
  concatenate_input_noise_map x noise_sigma = Ok (folded x noise_sigma).
Proof.
  intros Hsz HH HW Hlen.
  rewrite (concatenate_input_noise_map_unfold _ _ Hsz).
  subst N. rewrite view_noise. cbn [bind].
  unfold torch.empty_fill_.
  rewrite (deinterleave_loop _ Hsz HH HW). cbn [bind].
  unfold torch.cat, torch.repeat, deinterleaved, folded.
  rewrite Hsz, !size_tabulate.
  rewrite !Nat.mul_1_r, !Nat.mul_1_l, !Nat.eqb_refl. cbn [andb].
  replace (C + 4 * C) with (5 * C) by lia.
  f_equal. apply tabulate_ext. intros n c h w Hn Hc Hh Hw.
  destruct (Nat.ltb_spec c C) as [Hlt | Hge].
  - rewrite get_tabulate by lia.
    rewrite (Nat.mod_small n _ Hn), !Nat.mod_1_r.
    rewrite get_tabulate by lia. do 2 f_equal. lia.
  - now rewrite get_tabulate by lia.
Qed.

Theorem forward_ok (x : tensor A) (N Cin Hin Win : nat) :
  size x = (N, Cin, Hin, Win) -> Cin mod 4 = 0 ->
  UpSampleFeaturesFunction.forward x = Ok (interleaved x).
Proof.
  intros Hsz Hmod. rewrite (forward_unfold _ Hsz).
  rewrite Hmod. cbn [Nat.eqb negb]. unfold torch.zeros, interleaved.
  rewrite Hsz.
  assert (HC : Cin = 4 * (Cin / 4)) by lia.
  set (Cq := Cin / 4) in *. clearbody Cq. subst Cin.
  rewrite (@interleave_loop _ _ x N Cq Hin Win Hsz). reflexivity.
Qed.

Theorem forward_asserts (x : tensor A) (N Cin Hin Win : nat) :
  size x = (N, Cin, Hin, Win) -> Cin mod 4 <> 0 ->
  UpSampleFeaturesFunction.forward x =
  Raise (AssertionError
    "Invalid input dimensions: number of channels should be divisible by 4").
Proof.
  intros Hsz Hmod. rewrite (forward_unfold _ Hsz).
  destruct (Nat.eqb_spec (Cin mod 4) 0) as [E | E]; [ lia | reflexivity ].
Qed.

Theorem backward_ok (g : tensor A) (N C H W : nat) :
  size g = (N, C, H, W) -> H mod 2 = 0 -> W mod 2 = 0 ->
  UpSampleFeaturesFunction.backward g = Ok (deinterleaved g).
Proof.
  intros Hsz HH HW. rewrite (backward_unfold _ Hsz).
  unfold torch.zeros. rewrite (deinterleave_loop _ Hsz HH HW).
  reflexivity.
Qed.

End ClosedForms.

(** ** Properties of the layers *)

Lemma fails_bind {T U : Type} (r : result T) (k : T -> result U) :
  fails r -> fails (bind r k).
Proof. intros [e ->]. exists e. reflexivity. Qed.

Lemma size_folded {A B R : Type} `{dtype : Dtype A}
    `{noise_dtype : Dtype B} `{result_dtype : Dtype R}
    `{promotion : Promote B A R} (x : tensor A)
    (noise_sigma : list B) (N C H W : nat) :
  size x = (N, C, H, W) ->
  size (folded x noise_sigma) = (N, 5 * C, H / 2, W / 2).
Proof. intros Hsz. unfold folded. rewrite Hsz. apply size_tabulate. Qed.

Lemma size_interleaved {A : Type} `{dtype : Dtype A} (x : tensor A)
    (N Cin Hin Win : nat) :
  size x = (N, Cin, Hin, Win) ->
  size (interleaved x) = (N, Cin / 4, Hin * 2, Win * 2).
Proof. intros Hsz. unfold interleaved. rewrite Hsz. apply size_tabulate. Qed.

Lemma size_deinterleaved {A : Type} `{dtype : Dtype A} (x : tensor A)
    (N C H W : nat) :
  size x = (N, C, H, W) ->
  size (deinterleaved x) = (N, 4 * C, H / 2, W / 2).
Proof. intros Hsz. unfold deinterleaved. rewrite Hsz. apply size_tabulate. Qed.

(** The elements of the three closed forms. *)
Lemma get_folded_noise {A B R : Type} `{dtype : Dtype A}
    `{noise_dtype : Dtype B} `{result_dtype : Dtype R}
    `{promotion : Promote B A R} (x : tensor A)
    (noise_sigma : list B) (N C H W n c i j : nat) :
  size x = (N, C, H, W) ->
  n < N -> c < C -> i < H / 2 -> j < W / 2 ->
  torch.get (folded x noise_sigma) n c i j =
  promote_l promotion (nth n noise_sigma zero).
Proof.
  intros Hsz Hn Hc Hi Hj. unfold folded. rewrite Hsz.
  rewrite get_tabulate by lia.
  destruct (Nat.ltb_spec c C); [ reflexivity | lia ].
Qed.

Lemma get_folded_features {A B R : Type} `{dtype : Dtype A}
    `{noise_dtype : Dtype B} `{result_dtype : Dtype R}
    `{promotion : Promote B A R} (x : tensor A)
    (noise_sigma : list B) (N C H W n c i j : nat) :
  size x = (N, C, H, W) ->
  n < N -> c < 4 * C -> i < H / 2 -> j < W / 2 ->
  torch.get (folded x noise_sigma) n (C + c) i j =
  promote_r promotion
    (torch.get x n (c / 4) (2 * i + (c mod 4) / 2)
       (2 * j + (c mod 4) mod 2)).
Proof.
  intros Hsz Hn Hc Hi Hj. unfold folded. rewrite Hsz.
  rewrite get_tabulate by lia.
  destruct (Nat.ltb_spec (C + c) C); [ lia | ].
  replace (C + c - C) with c by lia. reflexivity.
Qed.

Lemma get_deinterleaved {A : Type} `{dtype : Dtype A} (x : tensor A)
    (N C H W n c i j : nat) :
  size x = (N, C, H, W) ->
  n < N -> c < 4 * C -> i < H / 2 -> j < W / 2 ->
  torch.get (deinterleaved x) n c i j =
  torch.get x n (c / 4) (2 * i + (c mod 4) / 2) (2 * j + (c mod 4) mod 2).
Proof.
  intros Hsz Hn Hc Hi Hj. unfold deinterleaved. rewrite Hsz.
  now rewrite get_tabulate by lia.
Qed.

Lemma get_interleaved {A : Type} `{dtype : Dtype A} (x : tensor A)
    (N Cin Hin Win n c h w : nat) :
  size x = (N, Cin, Hin, Win) ->
  n < N -> c < Cin / 4 -> h < Hin * 2 -> w < Win * 2 ->
  torch.get (interleaved x) n c h w =
  torch.get x n (2 * (h mod 2) + w mod 2 + 4 * c) (h / 2) (w / 2).
Proof.
  intros Hsz Hn Hc Hh Hw. unfold interleaved. rewrite Hsz.
  now rewrite get_tabulate by lia.
Qed.

(** The rows of [idxL], in their order. *)
Lemma idxL_rows (k r s : nat) :
  nth_error idxL k = Some [r; s] -> k < 4 /\ r = k / 2 /\ s = k mod 2.
Proof.
  intros Hk.
  destruct k as [ | [ | [ | [ | k ] ] ] ]; cbn in Hk;
    try (injection Hk as <- <-; cbn; lia).
  destruct k; discriminate Hk.
Qed.

Lemma slice_len_from (a d : nat) :
  slice_len (PSlice a None 1) d = d - a.
Proof. slice_unfold. lia. Qed.

Lemma slice_at_from (a d p : nat) :
  a <= d -> slice_at (PSlice a None 1) d p = a + p.
Proof. intros Ha. slice_unfold. lia. Qed.

Lemma fold_then_unfold_promoted {A B R : Type} `{dtype : Dtype A}
    `{noise_dtype : Dtype B} `{result_dtype : Dtype R}
    `{promotion : Promote B A R}
    (x : tensor A) (noise_sigma : list B) (N C H W : nat) :
  size x = (N, C, H, W) -> H mod 2 = 0 -> W mod 2 = 0 ->
  List.length noise_sigma = N ->
  (y <- concatenate_input_noise_map x noise_sigma ;;
   features <- torch.getitem y
     (slice_all, PSlice C None 1, slice_all, slice_all) ;;
   UpSampleFeaturesFunction.forward features) =
  Ok (torch.tabulate (N, C, H, W)
        (fun n c h w => promote_r promotion (torch.get x n c h w))).
Proof.
  intros Hsz HH HW Hlen.
  rewrite (concatenate_input_noise_map_ok _ _ Hsz HH HW Hlen). cbn [bind].
  erewrite getitem_ok;
    [ | apply (size_folded _ _ Hsz) | reflexivity ].
  cbn [bind].
  rewrite !slice_len_all, slice_len_from.
  replace (5 * C - C) with (4 * C) by lia.
  erewrite forward_ok; [ | apply size_tabulate | lia ].
  f_equal. unfold interleaved. rewrite size_tabulate.
  replace (4 * C / 4) with C by lia.
  replace (H / 2 * 2) with H by lia.
  replace (W / 2 * 2) with W by lia.
  apply tabulate_ext. intros n c h w Hn Hc Hh Hw.
  rewrite get_tabulate by lia.
  rewrite !slice_at_all, slice_at_from by lia.
  rewrite (get_folded_features _ _ Hsz) by lia.
  do 2 f_equal; lia.
Qed.

(** C1, as the code has it. Folding a well-formed image batch with even
    height and width with a noise vector of length N, dropping the first
    [C] channels of the result (the noise map) and unfolding the remaining
    [4 * C] channels gives the image batch converted, element for element,
    to the type [torch.cat] promotes the noise and the image to; when the
    noise vector has the element type of the image this is the image batch
    itself. *)
Theorem fold_then_unfold_roundtrip :
  (forall (A B R : Type) (dtype : Dtype A) (noise_dtype : Dtype B)
          (result_dtype : Dtype R) (promotion : Promote B A R)
          (x : tensor A) (noise_sigma : list B) (N C H W : nat),
     torch.well_formed x = true ->
     size x = (N, C, H, W) -> H mod 2 = 0 -> W mod 2 = 0 ->
     List.length noise_sigma = N ->
     (y <- concatenate_input_noise_map x noise_sigma ;;
      features <- torch.getitem y
        (slice_all, PSlice C None 1, slice_all, slice_all) ;;
      UpSampleFeaturesFunction.forward features) =
     Ok (torch.convert (promote_r promotion) x))
  /\
  (forall (A : Type) (dtype : Dtype A)
          (x : tensor A) (noise_sigma : list A) (N C H W : nat),
     torch.well_formed x = true ->
     size x = (N, C, H, W) -> H mod 2 = 0 -> W mod 2 = 0 ->
     List.length noise_sigma = N ->
     (y <- concatenate_input_noise_map (promotion := Promote_same A)
            x noise_sigma ;;
      features <- torch.getitem y
        (slice_all, PSlice C None 1, slice_all, slice_all) ;;
      UpSampleFeaturesFunction.forward features) = Ok x).
Proof.
  split.
  - intros A B R dtype noise_dtype result_dtype promotion x noise_sigma
      N C H W Hwf Hsz HH HW Hlen.
    rewrite (fold_then_unfold_promoted _ _ Hsz HH HW Hlen).
    now rewrite (convert_tabulate _ _ Hwf Hsz).
  - intros A dtype x noise_sigma N C H W Hwf Hsz HH HW Hlen.
    rewrite (fold_then_unfold_promoted _ _ Hsz HH HW Hlen).
    cbn [promote_r Promote_same]. f_equal.
    rewrite <- Hsz. exact (tabulate_get x Hwf).
Qed.

(** C2, as the code has it. On an image batch with even height and
    width, the deinterleaved block of Fold's result (the channels after the
    [C] noise channels) holds at channel [k + 4 * c] the plane of input
    channel [c] sampled at the rows of parity [r] and the columns of parity
    [s], where [[r; s]] is row [k] of [idxL], that is (0,0), (0,1), (1,0),
    (1,1) for k = 0..3: the four offsets are interleaved with stride 4, not
    grouped. Each element is the input element converted to the type
    [torch.cat] promotes the noise and the image to, and the input element
    itself when the noise vector has the element type of the image. *)
Theorem fold_stride4_interleave :
  idxL = [[0; 0]; [0; 1]; [1; 0]; [1; 1]] /\
  (forall (A B R : Type) (dtype : Dtype A) (noise_dtype : Dtype B)
          (result_dtype : Dtype R) (promotion : Promote B A R)
          (x : tensor A) (noise_sigma : list B) (N C H W : nat),
     size x = (N, C, H, W) -> H mod 2 = 0 -> W mod 2 = 0 ->
     List.length noise_sigma = N ->
     exists y : tensor R,
       concatenate_input_noise_map x noise_sigma = Ok y /\
       forall k r s n c i j,
         nth_error idxL k = Some [r; s] ->
         n < N -> c < C -> i < H / 2 -> j < W / 2 ->
         torch.get y n (C + (k + 4 * c)) i j =
         promote_r promotion (torch.get x n c (2 * i + r) (2 * j + s)))
  /\
  (forall (A : Type) (dtype : Dtype A)
          (x : tensor A) (noise_sigma : list A) (N C H W : nat),
     size x = (N, C, H, W) -> H mod 2 = 0 -> W mod 2 = 0 ->
     List.length noise_sigma = N ->
     exists y : tensor A,
       concatenate_input_noise_map (promotion := Promote_same A)
         x noise_sigma = Ok y /\
       forall k r s n c i j,
         nth_error idxL k = Some [r; s] ->
         n < N -> c < C -> i < H / 2 -> j < W / 2 ->
         torch.get y n (C + (k + 4 * c)) i j =
         torch.get x n c (2 * i + r) (2 * j + s)).
Proof.
  split; [ reflexivity | ].
  assert (Hgeneral :
    forall (A B R : Type) (dtype : Dtype A) (noise_dtype : Dtype B)
           (result_dtype : Dtype R) (promotion : Promote B A R)
           (x : tensor A) (noise_sigma : list B) (N C H W : nat),
      size x = (N, C, H, W) -> H mod 2 = 0 -> W mod 2 = 0 ->
      List.length noise_sigma = N ->
      exists y : tensor R,
        concatenate_input_noise_map x noise_sigma = Ok y /\
        forall k r s n c i j,
          nth_error idxL k = Some [r; s] ->
          n < N -> c < C -> i < H / 2 -> j < W / 2 ->
          torch.get y n (C + (k + 4 * c)) i j =
          promote_r promotion (torch.get x n c (2 * i + r) (2 * j + s))).
  { intros A B R dtype noise_dtype result_dtype promotion x noise_sigma
      N C H W Hsz HH HW Hlen.
    exists (folded x noise_sigma). split.
    - exact (concatenate_input_noise_map_ok _ _ Hsz HH HW Hlen).
    - intros k r s n c i j Hk Hn Hc Hi Hj.
      apply idxL_rows in Hk. destruct Hk as [Hk [-> ->]].
      rewrite (get_folded_features _ _ Hsz) by lia.
      do 2 f_equal; lia. }
  split; [ exact Hgeneral | ].
  intros A dtype x noise_sigma N C H W Hsz HH HW Hlen.
  exact (Hgeneral A A A dtype dtype dtype (Promote_same A) x noise_sigma
           N C H W Hsz HH HW Hlen).
Qed.

(** C4. Fold maps a batch of shape (N, C, H, W) with even H and W to a
    tensor of shape (N, 5C, H/2, W/2); Unfold maps a tensor of shape
    (N, Cin, Hin, Win) with Cin divisible by 4 to one of shape
    (N, Cin/4, 2 Hin, 2 Win). *)
Theorem shape_law {A B R : Type} `{dtype : Dtype A}
    `{noise_dtype : Dtype B} `{result_dtype : Dtype R}
    `{promotion : Promote B A R} :
  (forall (x : tensor A) (noise_sigma : list B) (N C H W : nat),
     size x = (N, C, H, W) -> H mod 2 = 0 -> W mod 2 = 0 ->
     List.length noise_sigma = N ->
     exists y : tensor R,
       concatenate_input_noise_map x noise_sigma = Ok y /\
       size y = (N, 5 * C, H / 2, W / 2) /\
       torch.well_formed y = true) /\
  (forall (x : tensor A) (N Cin Hin Win : nat),
     size x = (N, Cin, Hin, Win) -> Cin mod 4 = 0 ->
     exists y,
       UpSampleFeaturesFunction.forward x = Ok y /\
       size y = (N, Cin / 4, 2 * Hin, 2 * Win) /\
       torch.well_formed y = true).
Proof.
  split.
  - intros x noise_sigma N C H W Hsz HH HW Hlen.
    exists (folded x noise_sigma). split; [ | split ].
    + exact (concatenate_input_noise_map_ok _ _ Hsz HH HW Hlen).
    + exact (size_folded _ _ Hsz).
    + unfold folded. rewrite Hsz. apply well_formed_tabulate.
  - intros x N Cin Hin Win Hsz Hmod.
    exists (interleaved x). split; [ | split ].
    + exact (forward_ok _ Hsz Hmod).
    + rewrite (size_interleaved _ Hsz).
      now rewrite (Nat.mul_comm 2 Hin), (Nat.mul_comm 2 Win).
    + unfold interleaved. rewrite Hsz. apply well_formed_tabulate.
Qed.

(** C6. On a tensor whose channel count is not divisible by 4, Unfold
    raises its assertion error, with the message of the source, and returns
    no tensor. *)
Theorem forward_rejects_channels {A : Type} `{dtype : Dtype A}
    (x : tensor A) (N Cin Hin Win : nat) :
  size x = (N, Cin, Hin, Win) -> Cin mod 4 <> 0 ->
  UpSampleFeaturesFunction.forward x =
  Raise (AssertionError
    "Invalid input dimensions: number of channels should be divisible by 4").
Proof. intros Hsz Hmod. exact (forward_asserts _ Hsz Hmod). Qed.

(** C7, as the code has it. On an image batch with even height and width
    and a noise vector of length N, every element of the first [C] channels
    of Fold's result for image [n] is the noise level of image [n]
    converted to the type [torch.cat] promotes the noise and the image to,
    and the noise level itself when the noise vector has the element type
    of the image. *)
Theorem fold_noise_broadcast :
  (forall (A B R : Type) (dtype : Dtype A) (noise_dtype : Dtype B)
          (result_dtype : Dtype R) (promotion : Promote B A R)
          (x : tensor A) (noise_sigma : list B) (N C H W : nat),
     size x = (N, C, H, W) -> H mod 2 = 0 -> W mod 2 = 0 ->
     List.length noise_sigma = N ->
     exists y : tensor R,
       concatenate_input_noise_map x noise_sigma = Ok y /\
       forall n c i j,
         n < N -> c < C -> i < H / 2 -> j < W / 2 ->
         option_map (promote_l promotion) (nth_error noise_sigma n) =
         Some (torch.get y n c i j))
  /\
  (forall (A : Type) (dtype : Dtype A)
          (x : tensor A) (noise_sigma : list A) (N C H W : nat),
     size x = (N, C, H, W) -> H mod 2 = 0 -> W mod 2 = 0 ->
     List.length noise_sigma = N ->
     exists y : tensor A,
       concatenate_input_noise_map (promotion := Promote_same A)
         x noise_sigma = Ok y /\
       forall n c i j,
         n < N -> c < C -> i < H / 2 -> j < W / 2 ->
         nth_error noise_sigma n = Some (torch.get y n c i j)).
Proof.
  split.
  - intros A B R dtype noise_dtype result_dtype promotion x noise_sigma
      N C H W Hsz HH HW Hlen.
    exists (folded x noise_sigma). split.
    + exact (concatenate_input_noise_map_ok _ _ Hsz HH HW Hlen).
    + intros n c i j Hn Hc Hi Hj.
      rewrite (get_folded_noise _ _ Hsz) by lia.
      rewrite (nth_error_nth' noise_sigma zero) by lia. reflexivity.
  - intros A dtype x noise_sigma N C H W Hsz HH HW Hlen.
    exists (folded (promotion := Promote_same A) x noise_sigma). split.
    + exact (concatenate_input_noise_map_ok _ _ Hsz HH HW Hlen).
    + intros n c i j Hn Hc Hi Hj.
      rewrite (get_folded_noise _ _ Hsz) by lia.
      cbn [promote_l Promote_same]. apply nth_error_nth'. lia.
Qed.

(** C8. When the length of the noise vector differs from the batch size,
    Fold raises and returns no tensor. *)
Theorem fold_rejects_noise_length {A B R : Type} `{dtype : Dtype A}
    `{noise_dtype : Dtype B} `{result_dtype : Dtype R}
    `{promotion : Promote B A R}
    (x : tensor A) (noise_sigma : list B) (N C H W : nat) :
  size x = (N, C, H, W) -> List.length noise_sigma <> N ->
  fails (concatenate_input_noise_map x noise_sigma).
Proof.
  intros Hsz Hlen.
  rewrite (concatenate_input_noise_map_unfold _ _ Hsz).
  apply fails_bind. now apply view_noise_raises.
Qed.

(** C10. For a tensor whose channel count is divisible by 4, the backward
    of Unfold applied to the result of its forward gives back the tensor
    itself. *)
Theorem backward_after_forward {A : Type} `{dtype : Dtype A}
    (x : tensor A) (N Cin Hin Win : nat) :
  torch.well_formed x = true ->
  size x = (N, Cin, Hin, Win) -> Cin mod 4 = 0 ->
  (y <- UpSampleFeaturesFunction.forward x ;;
   UpSampleFeaturesFunction.backward y) = Ok x.
Proof.
  intros Hwf Hsz Hmod.
  rewrite (forward_ok _ Hsz Hmod). cbn [bind].
  pose proof (size_interleaved _ Hsz) as Hsy.
  rewrite (backward_ok _ Hsy) by lia.
  f_equal. unfold deinterleaved. rewrite Hsy.
  transitivity (torch.tabulate (size x) (torch.get x));
    [ | exact (tabulate_get x Hwf) ].
  rewrite Hsz.
  replace (4 * (Cin / 4)) with Cin by lia.
  replace (Hin * 2 / 2) with Hin by lia.
  replace (Win * 2 / 2) with Win by lia.
  apply tabulate_ext. intros n c h w Hn Hc Hh Hw.
  rewrite (get_interleaved _ Hsz) by lia.
  f_equal; lia.
Qed.

(** Without a parity check of its own, Fold is stopped only by the slice
    assignment: [input[:, :, 0::2, 0::2]] has [(H + 1) / 2] rows and
    [(W + 1) / 2] columns, the destination has [H / 2] and [W / 2]. *)
Lemma slice_len_even_offset (d : nat) :
  slice_len (PSlice 0 None 2) d = (d + 1) / 2.
Proof. slice_unfold. lia. Qed.

Lemma first_patch_not_expandable (N C H W : nat) :
  (H mod 2 = 1 /\ 3 <= H) \/ (W mod 2 = 1 /\ 3 <= W) ->
  torch.expandable
    (slice_len slice_all N, slice_len slice_all C,
     slice_len (PSlice 0 None 2) H, slice_len (PSlice 0 None 2) W)
    (slice_len slice_all N, slice_len (PSlice 0 (Some (4 * C)) 4) (4 * C),
     slice_len slice_all (H / 2), slice_len slice_all (W / 2)) = false.
Proof.
  intros Hodd.
  rewrite !slice_len_all, !slice_len_even_offset. unfold torch.expandable.
  destruct Hodd as [[Hm Hge] | [Hm Hge]].
  - replace ((H + 1) / 2 =? H / 2) with false
      by (symmetry; apply Nat.eqb_neq; lia).
    replace ((H + 1) / 2 =? 1) with false
      by (symmetry; apply Nat.eqb_neq; lia).
    cbn [orb]. now rewrite andb_false_r.
  - replace ((W + 1) / 2 =? W / 2) with false
      by (symmetry; apply Nat.eqb_neq; lia).
    replace ((W + 1) / 2 =? 1) with false
      by (symmetry; apply Nat.eqb_neq; lia).
    cbn [orb]. now rewrite andb_false_r.
Qed.

Lemma odd_from_3_raises {A B R : Type} `{dtype : Dtype A}
    `{noise_dtype : Dtype B} `{result_dtype : Dtype R}
    `{promotion : Promote B A R}
    (x : tensor A) (noise_sigma : list B) (N C H W : nat) :
  size x = (N, C, H, W) ->
  (H mod 2 = 1 /\ 3 <= H) \/ (W mod 2 = 1 /\ 3 <= W) ->
  fails (concatenate_input_noise_map x noise_sigma).
Proof.
  intros Hsz Hodd.
  rewrite (concatenate_input_noise_map_unfold _ _ Hsz).
  destruct (torch.view noise_sigma (N, 1, 1, 1)) as [noise_view | e];
    [ | exists e; reflexivity ].
  cbn [bind]. apply fails_bind.
  unfold for_range. cbn [seq for_each]. apply fails_bind.
  unfold deinterleave_body.
  cbn [idxL_at idxL subscript nth_error bind].
  erewrite getitem_ok; [ | exact Hsz | reflexivity ].
  cbn [bind].
  eapply setitem_raises;
    [ apply size_tabulate | apply size_tabulate
    | now apply first_patch_not_expandable ].
Qed.

(** C5, as the code has it. Fold raises on every image batch whose height
    or width is odd and at least 3, whatever the noise vector: the first
    slice assignment of the loop finds a patch that cannot be expanded to
    its destination. *)
Theorem fold_rejects_odd_from_3 {A B R : Type} `{dtype : Dtype A}
    `{noise_dtype : Dtype B} `{result_dtype : Dtype R}
    `{promotion : Promote B A R}
    (x : tensor A) (noise_sigma : list B) (N C H W : nat) :
  size x = (N, C, H, W) ->
  (H mod 2 = 1 /\ 3 <= H) \/ (W mod 2 = 1 /\ 3 <= W) ->
  fails (concatenate_input_noise_map x noise_sigma).
Proof. intros Hsz Hodd. exact (odd_from_3_raises _ _ Hsz Hodd). Qed.

(** C5, as stated, fails on a batch of height 1: the single row of
    [input[:, :, 0::2, 0::2]] is expanded to the zero rows of the
    destination, and Fold returns a tensor of height 0. *)
Lemma fold_accepts_height_1 :
  torch.well_formed height_1_batch = true /\
  size height_1_batch = (1, 1, 1, 2) /\
  1 mod 2 = 1 /\
  concatenate_input_noise_map height_1_batch [5%Z] =
    Ok (Tensor (1, 5, 0, 1) [[[]; []; []; []; []]]) /\
  ~ fails (concatenate_input_noise_map height_1_batch [5%Z]).
Proof.
  repeat split.
  intros [e He]. discriminate He.
Qed.

(** *** Batches with a single row or a single column

    A patch with one row (or one column) is expanded to a destination with
    none, so such a batch is folded to a tensor without elements. *)

Lemma expandable_intro (a b c d a' b' c' d' : nat) :
  a = a' \/ a = 1 -> b = b' \/ b = 1 -> c = c' \/ c = 1 -> d = d' \/ d = 1 ->
  torch.expandable (a, b, c, d) (a', b', c', d') = true.
Proof.
  intros Ha Hb Hc Hd. unfold torch.expandable.
  repeat (apply andb_true_intro; split);
    apply orb_true_iff; rewrite !Nat.eqb_eq; assumption.
Qed.

Lemma tabulate_no_elements {A : Type} `{dtype : Dtype A} (N C H W : nat)
    (f g : nat -> nat -> nat -> nat -> A) :
  H = 0 \/ W = 0 ->
  torch.tabulate (N, C, H, W) f = torch.tabulate (N, C, H, W) g.
Proof. intros Hempty. apply tabulate_ext. intros; lia. Qed.

Lemma deinterleave_step_single {A : Type} `{dtype : Dtype A}
    (x : tensor A) (N C H W k : nat) (F : nat -> nat -> nat -> nat -> A) :
  size x = (N, C, H, W) -> k < 4 ->
  H mod 2 = 0 \/ H = 1 -> W mod 2 = 0 \/ W = 1 -> H = 1 \/ W = 1 ->
  deinterleave_body x (4 * C) k
    (torch.tabulate (N, 4 * C, H / 2, W / 2) F) =
  Ok (torch.tabulate (N, 4 * C, H / 2, W / 2) F).
Proof.
  intros Hsz Hk HH HW Hone.
  assert (Hk4 : k = 0 \/ k = 1 \/ k = 2 \/ k = 3) by lia.
  destruct Hk4 as [-> | [-> | [-> | ->]]];
    unfold deinterleave_body;
    cbn [idxL_at idxL subscript nth_error bind];
    (erewrite getitem_ok; [ | exact Hsz | reflexivity ]); cbn [bind];
    (erewrite setitem_ok;
      [ | apply size_tabulate | apply size_tabulate | reflexivity
        | rewrite !slice_len_all, slice_len_chan by lia;
          apply expandable_intro;
          [ now left | now left | slice_unfold; lia | slice_unfold; lia ] ]);
    f_equal; apply tabulate_no_elements; lia.
Qed.

Theorem concatenate_input_noise_map_single {A B R : Type} `{dtype : Dtype A}
    `{noise_dtype : Dtype B} `{result_dtype : Dtype R}
    `{promotion : Promote B A R}
    (x : tensor A) (noise_sigma : list B) (N C H W : nat) :
  size x = (N, C, H, W) ->
  H mod 2 = 0 \/ H = 1 -> W mod 2 = 0 \/ W = 1 -> H = 1 \/ W = 1 ->
  List.length noise_sigma = N ->
  concatenate_input_noise_map x noise_sigma =
  Ok (torch.tabulate (N, 5 * C, H / 2, W / 2) (fun _ _ _ _ => zero)).
Proof.
  intros Hsz HH HW Hone Hlen.
  rewrite (concatenate_input_noise_map_unfold _ _ Hsz).
  subst N. rewrite view_noise. cbn [bind].
  unfold torch.empty_fill_, for_range. cbn [seq for_each].
  do 4 (rewrite (@deinterleave_step_single _ _ x _ C H W _ _ Hsz)
          by (assumption || lia);
        cbn [bind]).
  unfold torch.cat, torch.repeat. rewrite !size_tabulate.
  rewrite !Nat.mul_1_r, !Nat.mul_1_l, !Nat.eqb_refl. cbn [andb].
  replace (C + 4 * C) with (5 * C) by lia.
  f_equal. apply tabulate_no_elements. lia.
Qed.

(** Fold raises exactly when the noise vector has the wrong length or a
    spatial dimension is odd and not 1. *)
Theorem concatenate_input_noise_map_fails_iff {A B R : Type} `{dtype : Dtype A}
    `{noise_dtype : Dtype B} `{result_dtype : Dtype R}
    `{promotion : Promote B A R}
    (x : tensor A) (noise_sigma : list B) (N C H W : nat) :
  size x = (N, C, H, W) ->
  fails (concatenate_input_noise_map x noise_sigma) <->
  List.length noise_sigma <> N
  \/ (H mod 2 = 1 /\ H <> 1) \/ (W mod 2 = 1 /\ W <> 1).
Proof.
  intros Hsz. split.
  - intros [e He].
    destruct (Nat.eq_dec (List.length noise_sigma) N) as [Hlen | Hlen];
      [ | now left ].
    right.
    assert (Hcases :
      ((H mod 2 = 1 /\ H <> 1) \/ (W mod 2 = 1 /\ W <> 1))
      \/ (H mod 2 = 0 /\ W mod 2 = 0)
      \/ ((H mod 2 = 0 \/ H = 1) /\ (W mod 2 = 0 \/ W = 1)
          /\ (H = 1 \/ W = 1))) by lia.
    destruct Hcases as [Hodd | [[HH HW] | [HH [HW Hone]]]].
    + exact Hodd.
    + rewrite (concatenate_input_noise_map_ok _ _ Hsz HH HW Hlen) in He.
      discriminate He.
    + rewrite (concatenate_input_noise_map_single _ _ Hsz HH HW Hone Hlen)
        in He.
      discriminate He.
  - intros [Hlen | Hodd].
    + rewrite (concatenate_input_noise_map_unfold _ _ Hsz).
      apply fails_bind. now apply view_noise_raises.
    + apply (odd_from_3_raises _ _ Hsz). lia.
Qed.

(** ** Independence of the images of a batch *)

Lemma nth_of_nth_error {B : Type} (l : list B) (i : nat) (d : B) :
  nth i l d = match nth_error l i with Some b => b | None => d end.
Proof.
  revert i. induction l as [ | b l IH ]; intros [ | i ]; cbn; auto.
Qed.

Lemma get_same_image {A : Type} `{dtype : Dtype A} (x x' : tensor A)
    (m : nat) :
  nth_error (data x) m = nth_error (data x') m ->
  forall c h w, torch.get x m c h w = torch.get x' m c h w.
Proof.
  intros Himg c h w. unfold torch.get.
  now rewrite (nth_of_nth_error (data x)), (nth_of_nth_error (data x')), Himg.
Qed.

(** Image [m] of a tabulated tensor. *)
Lemma nth_error_tabulate {A : Type} `{dtype : Dtype A} (N C H W : nat)
    (f : nat -> nat -> nat -> nat -> A) (m : nat) :
  m < N ->
  nth_error (data (torch.tabulate (N, C, H, W) f)) m =
  Some (map (fun c =>
          map (fun h => map (fun w => f m c h w) (seq 0 W)) (seq 0 H))
          (seq 0 C)).
Proof.
  intros Hm. unfold torch.tabulate. cbn [data].
  rewrite (nth_error_nth' _ [])
    by (rewrite length_map, length_seq; exact Hm).
  now rewrite nth_map_seq.
Qed.

Lemma same_image_tabulate {A : Type} `{dtype : Dtype A}
    (N N' C H W : nat) (f g : nat -> nat -> nat -> nat -> A) (m : nat) :
  m < N -> m < N' ->
  (forall c h w, c < C -> h < H -> w < W -> f m c h w = g m c h w) ->
  nth_error (data (torch.tabulate (N, C, H, W) f)) m =
  nth_error (data (torch.tabulate (N', C, H, W) g)) m.
Proof.
  intros Hm Hm' Hfg. rewrite !nth_error_tabulate by assumption. f_equal.
  apply map_seq_ext. intros c Hc.
  apply map_seq_ext. intros h Hh.
  apply map_seq_ext. intros w Hw.
  now apply Hfg.
Qed.

(** C9. Two valid batches, possibly of different sizes, that hold the same
    image at position [m] (and, for Fold, the same noise level for it) give
    the same image at position [m] of the result, for Fold, for Unfold's
    forward and for Unfold's backward. *)
Theorem batch_noninterference {A B R : Type} `{dtype : Dtype A}
    `{noise_dtype : Dtype B} `{result_dtype : Dtype R}
    `{promotion : Promote B A R} (m : nat) :
  (forall (x x' : tensor A) (sigma sigma' : list B) (N N' C H W : nat),
     size x = (N, C, H, W) -> size x' = (N', C, H, W) ->
     H mod 2 = 0 -> W mod 2 = 0 ->
     List.length sigma = N -> List.length sigma' = N' ->
     m < N -> m < N' ->
     nth_error (data x) m = nth_error (data x') m ->
     nth_error sigma m = nth_error sigma' m ->
     exists y y' : tensor R,
       concatenate_input_noise_map x sigma = Ok y /\
       concatenate_input_noise_map x' sigma' = Ok y' /\
       nth_error (data y) m = nth_error (data y') m) /\
  (forall (x x' : tensor A) (N N' Cin Hin Win : nat),
     size x = (N, Cin, Hin, Win) -> size x' = (N', Cin, Hin, Win) ->
     Cin mod 4 = 0 ->
     m < N -> m < N' ->
     nth_error (data x) m = nth_error (data x') m ->
     exists y y',
       UpSampleFeaturesFunction.forward x = Ok y /\
       UpSampleFeaturesFunction.forward x' = Ok y' /\
       nth_error (data y) m = nth_error (data y') m) /\
  (forall (g g' : tensor A) (N N' C H W : nat),
     size g = (N, C, H, W) -> size g' = (N', C, H, W) ->
     H mod 2 = 0 -> W mod 2 = 0 ->
     m < N -> m < N' ->
     nth_error (data g) m = nth_error (data g') m ->
     exists b b',
       UpSampleFeaturesFunction.backward g = Ok b /\
       UpSampleFeaturesFunction.backward g' = Ok b' /\
       nth_error (data b) m = nth_error (data b') m).
Proof.
  split; [ | split ].
  - intros x x' sigma sigma' N N' C H W Hsz Hsz' HH HW Hl Hl' Hm Hm'
      Himg Hnoise.
    exists (folded x sigma), (folded x' sigma').
    split; [ | split ].
    + exact (concatenate_input_noise_map_ok _ _ Hsz HH HW Hl).
    + exact (concatenate_input_noise_map_ok _ _ Hsz' HH HW Hl').
    + unfold folded. rewrite Hsz, Hsz'.
      apply same_image_tabulate; try assumption.
      intros c h w Hc Hh Hw.
      rewrite (nth_of_nth_error sigma), (nth_of_nth_error sigma'), Hnoise.
      destruct (c <? C); [ reflexivity | ].
      f_equal. now apply get_same_image.
  - intros x x' N N' Cin Hin Win Hsz Hsz' Hmod Hm Hm' Himg.
    exists (interleaved x), (interleaved x').
    split; [ | split ].
    + exact (forward_ok _ Hsz Hmod).
    + exact (forward_ok _ Hsz' Hmod).
    + unfold interleaved. rewrite Hsz, Hsz'.
      apply same_image_tabulate; try assumption.
      intros c h w Hc Hh Hw. now apply get_same_image.
  - intros g g' N N' C H W Hsz Hsz' HH HW Hm Hm' Himg.
    exists (deinterleaved g), (deinterleaved g').
    split; [ | split ].
    + exact (backward_ok _ Hsz HH HW).
    + exact (backward_ok _ Hsz' HH HW).
    + unfold deinterleaved. rewrite Hsz, Hsz'.
      apply same_image_tabulate; try assumption.
      intros c h w Hc Hh Hw. now apply get_same_image.
Qed.

(** ** The backward of Unfold as the adjoint of its forward *)

Section Adjoint.
Context {A : Type} `{dtype : Dtype A}.
Variables add mul : A -> A -> A.
Hypothesis add_comm : forall a b, add a b = add b a.
Hypothesis add_assoc : forall a b c, add a (add b c) = add (add a b) c.

Lemma bigsum_ext (k : nat) (f g : nat -> A) :
  (forall i, i < k -> f i = g i) -> bigsum add k f = bigsum add k g.
Proof.
  induction k as [ | k IH ]; intros Hfg; cbn; [ reflexivity | ].
  rewrite IH by (intros i Hi; apply Hfg; lia).
  rewrite (Hfg k) by lia. reflexivity.
Qed.

Lemma add_interchange (a b c d : A) :
  add (add a b) (add c d) = add (add a c) (add b d).
Proof.
  rewrite <- (add_assoc a b (add c d)), (add_assoc b c d).
  rewrite (add_comm b c).
  now rewrite <- (add_assoc c b d), (add_assoc a c (add b d)).
Qed.

Hypothesis add_zero : add zero zero = zero.

Lemma bigsum_add (k : nat) (f g : nat -> A) :
  add (bigsum add k f) (bigsum add k g) = bigsum add k (fun i => add (f i) (g i)).
Proof.
  induction k as [ | k IH ]; cbn; [ exact add_zero | ].
  now rewrite add_interchange, IH.
Qed.

Lemma bigsum_pairs (k : nat) (f : nat -> A) :
  bigsum add (2 * k) f = bigsum add k (fun i => add (f (2 * i)) (f (2 * i + 1))).
Proof.
  induction k as [ | k IH ]; [ reflexivity | ].
  replace (2 * S k) with (S (S (2 * k))) by lia.
  cbn [bigsum]. rewrite IH, <- add_assoc.
  replace (S (2 * k)) with (2 * k + 1) by lia. reflexivity.
Qed.

Lemma bigsum_quads (k : nat) (f : nat -> A) :
  bigsum add (4 * k) f =
  bigsum add k (fun c =>
    add (add (f (4 * c)) (f (4 * c + 1)))
        (add (f (4 * c + 2)) (f (4 * c + 3)))).
Proof.
  replace (4 * k) with (2 * (2 * k)) by lia.
  rewrite !bigsum_pairs. apply bigsum_ext. intros c _.
  repeat (f_equal; try lia).
Qed.

(** Summing over the pixels of the unfolded tensor is summing over the
    channels and pixels of the folded one. *)
Lemma bigsum_depth_to_space (Cq Hin Win : nat) (F : nat -> nat -> nat -> A) :
  bigsum add Cq (fun c =>
    bigsum add (2 * Hin) (fun h =>
      bigsum add (2 * Win) (fun w =>
        F (2 * (h mod 2) + w mod 2 + 4 * c) (h / 2) (w / 2)))) =
  bigsum add (4 * Cq) (fun c' =>
    bigsum add Hin (fun i => bigsum add Win (fun j => F c' i j))).
Proof.
  rewrite bigsum_quads. apply bigsum_ext. intros c _.
  rewrite bigsum_pairs. rewrite !bigsum_add.
  apply bigsum_ext. intros i _.
  rewrite !bigsum_pairs. rewrite !bigsum_add.
  apply bigsum_ext. intros j _.
  repeat (f_equal; try lia).
Qed.

(** C3. For a tensor [x] of shape (N, Cin, Hin, Win) with Cin divisible by
    4 and a gradient [g] of shape (N, Cin/4, 2 Hin, 2 Win), the inner
    product of Unfold's result on [x] with [g] is the inner add mul product of [x]
    with the backward of [g], over any element type whose addition is
    commutative and associative; and the backward of [g] has the shape of
    [x] and holds at channel [k + 4 * c] the plane of gradient channel [c]
    sampled at the row and column parities of row [k] of [idxL]. *)
Theorem backward_is_adjoint (x g : tensor A) (N Cin Hin Win : nat) :
  size x = (N, Cin, Hin, Win) -> Cin mod 4 = 0 ->
  size g = (N, Cin / 4, 2 * Hin, 2 * Win) ->
  exists y b,
    UpSampleFeaturesFunction.forward x = Ok y /\
    UpSampleFeaturesFunction.backward g = Ok b /\
    size b = size x /\
    inner add mul y g = inner add mul x b /\
    forall k r s n c i j,
      nth_error idxL k = Some [r; s] ->
      n < N -> c < Cin / 4 -> i < Hin -> j < Win ->
      torch.get b n (k + 4 * c) i j =
      torch.get g n c (2 * i + r) (2 * j + s).
Proof.
  intros Hsz Hmod Hsg.
  rewrite (Nat.mul_comm 2 Hin), (Nat.mul_comm 2 Win) in Hsg.
  assert (HH : (Hin * 2) mod 2 = 0) by lia.
  assert (HW : (Win * 2) mod 2 = 0) by lia.
  exists (interleaved x), (deinterleaved g).
  split; [ exact (forward_ok _ Hsz Hmod) | ].
  split; [ exact (backward_ok _ Hsg HH HW) | ].
  assert (HC : Cin = 4 * (Cin / 4)) by lia.
  set (Cq := Cin / 4) in *. clearbody Cq. subst Cin.
  split; [ | split ].
  - rewrite (size_deinterleaved _ Hsg), Hsz.
    replace (Hin * 2 / 2) with Hin by lia.
    replace (Win * 2 / 2) with Win by lia.
    reflexivity.
  - unfold inner. rewrite (size_interleaved _ Hsz), Hsz.
    replace (4 * Cq / 4) with Cq by lia.
    rewrite (Nat.mul_comm Hin 2), (Nat.mul_comm Win 2).
    apply bigsum_ext. intros n Hn.
    rewrite <- (bigsum_depth_to_space Cq Hin Win
      (fun c' i j =>
         mul (torch.get x n c' i j) (torch.get (deinterleaved g) n c' i j))).
    apply bigsum_ext. intros c Hc.
    apply bigsum_ext. intros h Hh.
    apply bigsum_ext. intros w Hw.
    rewrite (get_interleaved _ Hsz) by lia.
    rewrite (get_deinterleaved _ Hsg) by lia.
    f_equal. f_equal; lia.
  - intros k r s n c i j Hk Hn Hc Hi Hj.
    apply idxL_rows in Hk. destruct Hk as [Hk [-> ->]].
    rewrite (get_deinterleaved _ Hsg) by lia.
    f_equal; lia.
Qed.

End Adjoint.

(** ** The worked example and concrete instances *)

(** A 2x2 block [[1, 2], [3, 4]] with noise level 5 folds to five 1x1
    channels: the noise level, then 1, 2, 3, 4 in the order of [idxL]. *)
Example fold_block_2x2 :
  concatenate_input_noise_map block_2x2 [5%Z] =
  Ok (Tensor (1, 5, 1, 1) [[[[5]]; [[1]]; [[2]]; [[3]]; [[4]]]]%Z).
Proof. reflexivity. Qed.

Example unfold_block_2x2 :
  UpSampleFeaturesFunction.forward
    (Tensor (1, 4, 1, 1) [[[[1]]; [[2]]; [[3]]; [[4]]]]%Z) =
  Ok block_2x2.
Proof. reflexivity. Qed.

Example backward_block_2x2 :
  UpSampleFeaturesFunction.backward block_2x2 =
  Ok (Tensor (1, 4, 1, 1) [[[[1]]; [[2]]; [[3]]; [[4]]]]%Z).
Proof. reflexivity. Qed.

Example fold_height_3 :
  concatenate_input_noise_map height_3_batch [5%Z] =
  Raise (RuntimeError
    "The expanded size of the tensor must match the existing size at non-singleton dimension").
Proof. reflexivity. Qed.

Lemma fold_then_unfold_roundtrip_witness :
  torch.well_formed block_2x2 = true /\
  size block_2x2 = (1, 1, 2, 2) /\
  (y <- concatenate_input_noise_map block_2x2 [5%Z] ;;
   features <- torch.getitem y
     (slice_all, PSlice 1 None 1, slice_all, slice_all) ;;
   UpSampleFeaturesFunction.forward features) = Ok block_2x2 /\
  (y <- concatenate_input_noise_map (promotion := promote_float32_int64)
         int64_block [float32_half] ;;
   features <- torch.getitem y
     (slice_all, PSlice 1 None 1, slice_all, slice_all) ;;
   UpSampleFeaturesFunction.forward features) =
  Ok (torch.convert float32_of_int64 int64_block).
Proof.
  split; [ reflexivity | split; [ reflexivity | split ] ].
  - apply (proj2 fold_then_unfold_roundtrip Z Dtype_Z block_2x2 [5%Z]
             1 1 2 2); reflexivity.
  - apply (proj1 fold_then_unfold_roundtrip Z spec_float spec_float
             Dtype_Z Dtype_float32 Dtype_float32 promote_float32_int64
             int64_block [float32_half] 1 1 2 2); reflexivity.
Defined.

(** C1, as stated, fails when the noise vector is [float32] and the image
    [int64]: the round trip returns the float 16777216 where the image
    holds 16777217. *)
Lemma fold_then_unfold_rounds_int64 :
  torch.well_formed int64_block = true /\
  size int64_block = (1, 1, 2, 2) /\
  2 mod 2 = 0 /\
  List.length [float32_half] = 1 /\
  (y <- concatenate_input_noise_map (promotion := promote_float32_int64)
         int64_block [float32_half] ;;
   features <- torch.getitem y
     (slice_all, PSlice 1 None 1, slice_all, slice_all) ;;
   UpSampleFeaturesFunction.forward features) =
  Ok (Tensor (1, 1, 2, 2)
        [[[[S754_finite false 8388608 1; S754_finite false 8388608 (-22)];
           [S754_finite false 12582912 (-22);
            S754_finite false 8388608 (-21)]]]]) /\
  integer_value (S754_finite false 8388608 1) = Some 16777216%Z /\
  torch.get int64_block 0 0 0 0 = 16777217%Z /\
  integer_value (S754_finite false 8388608 1) <>
  Some (torch.get int64_block 0 0 0 0).
Proof. repeat split. discriminate. Qed.

Lemma fold_stride4_interleave_witness :
  size two_images = (2, 1, 2, 2) /\
  (exists y : tensor Z,
     concatenate_input_noise_map two_images [5%Z; 6%Z] = Ok y /\
     forall k r s n c i j,
       nth_error idxL k = Some [r; s] ->
       n < 2 -> c < 1 -> i < 2 / 2 -> j < 2 / 2 ->
       torch.get y n (1 + (k + 4 * c)) i j =
       torch.get two_images n c (2 * i + r) (2 * j + s)) /\
  (exists y : tensor spec_float,
     concatenate_input_noise_map (promotion := promote_float32_int64)
       int64_block [float32_half] = Ok y /\
     forall k r s n c i j,
       nth_error idxL k = Some [r; s] ->
       n < 1 -> c < 1 -> i < 2 / 2 -> j < 2 / 2 ->
       torch.get y n (1 + (k + 4 * c)) i j =
       float32_of_int64 (torch.get int64_block n c (2 * i + r) (2 * j + s))).
Proof.
  split; [ reflexivity | split ].
  - apply (proj2 (proj2 fold_stride4_interleave) Z Dtype_Z two_images
             [5%Z; 6%Z] 2 1 2 2); reflexivity.
  - apply (proj1 (proj2 fold_stride4_interleave) Z spec_float spec_float
             Dtype_Z Dtype_float32 Dtype_float32 promote_float32_int64
             int64_block [float32_half] 1 1 2 2); reflexivity.
Defined.

(** C2, as stated, fails when the noise vector is [float32] and the image
    [int64]: channel [C + 0] of the result holds the float 16777216, the
    input pixel it is sampled from is 16777217. *)
Lemma fold_features_round_int64 :
  size int64_block = (1, 1, 2, 2) /\
  2 mod 2 = 0 /\
  List.length [float32_half] = 1 /\
  nth_error idxL 0 = Some [0; 0] /\
  exists y : tensor spec_float,
    concatenate_input_noise_map (promotion := promote_float32_int64)
      int64_block [float32_half] = Ok y /\
    torch.get y 0 (1 + (0 + 4 * 0)) 0 0 = S754_finite false 8388608 1 /\
    integer_value (torch.get y 0 (1 + (0 + 4 * 0)) 0 0) = Some 16777216%Z /\
    torch.get int64_block 0 0 (2 * 0 + 0) (2 * 0 + 0) = 16777217%Z /\
    integer_value (torch.get y 0 (1 + (0 + 4 * 0)) 0 0) <>
    Some (torch.get int64_block 0 0 (2 * 0 + 0) (2 * 0 + 0)).
Proof.
  repeat (split; [ reflexivity | ]).
  eexists. split; [ reflexivity | ]. repeat split. discriminate.
Qed.

Lemma backward_is_adjoint_witness :
  size two_stacks = (2, 4, 1, 1) /\
  size two_images = (2, 4 / 4, 2 * 1, 2 * 1) /\
  exists y b,
    UpSampleFeaturesFunction.forward two_stacks = Ok y /\
    UpSampleFeaturesFunction.backward two_images = Ok b /\
    size b = size two_stacks /\
    inner Z.add Z.mul y two_images = inner Z.add Z.mul two_stacks b /\
    forall k r s n c i j,
      nth_error idxL k = Some [r; s] ->
      n < 2 -> c < 4 / 4 -> i < 1 -> j < 1 ->
      torch.get b n (k + 4 * c) i j =
      torch.get two_images n c (2 * i + r) (2 * j + s).
Proof.
  split; [ reflexivity | split; [ reflexivity | ] ].
  apply (@backward_is_adjoint Z Dtype_Z Z.add Z.mul Z.add_comm Z.add_assoc
           eq_refl two_stacks two_images 2 4 1 1);
    reflexivity.
Defined.

Lemma shape_law_witness :
  (exists y : tensor Z,
     concatenate_input_noise_map two_images [5%Z; 6%Z] = Ok y /\
     size y = (2, 5 * 1, 2 / 2, 2 / 2) /\
     torch.well_formed y = true) /\
  (exists y,
     UpSampleFeaturesFunction.forward two_stacks = Ok y /\
     size y = (2, 4 / 4, 2 * 1, 2 * 1) /\
     torch.well_formed y = true).
Proof.
  split.
  - apply (proj1 (@shape_law Z Z Z Dtype_Z Dtype_Z Dtype_Z (Promote_same Z))
             two_images [5%Z; 6%Z] 2 1 2 2);
      reflexivity.
  - apply (proj2 (@shape_law Z Z Z Dtype_Z Dtype_Z Dtype_Z (Promote_same Z))
             two_stacks 2 4 1 1); reflexivity.
Defined.

Lemma fold_rejects_odd_from_3_witness :
  size height_3_batch = (1, 1, 3, 2) /\
  (3 mod 2 = 1 /\ 3 <= 3) /\
  fails (concatenate_input_noise_map height_3_batch [5%Z]).
Proof.
  split; [ reflexivity | split; [ split; [ reflexivity | lia ] | ] ].
  apply (@fold_rejects_odd_from_3 Z Z Z Dtype_Z Dtype_Z Dtype_Z (Promote_same Z)
           height_3_batch [5%Z] 1 1 3 2).
  - reflexivity.
  - left. split; [ reflexivity | lia ].
Defined.

Lemma forward_rejects_channels_witness :
  size three_channels = (1, 3, 1, 1) /\
  3 mod 4 <> 0 /\
  UpSampleFeaturesFunction.forward three_channels =
  Raise (AssertionError
    "Invalid input dimensions: number of channels should be divisible by 4").
Proof.
  split; [ reflexivity | split; [ cbn; lia | ] ].
  apply (@forward_rejects_channels Z _ three_channels 1 3 1 1).
  - reflexivity.
  - cbn. lia.
Defined.

Lemma fold_noise_broadcast_witness :
  size two_images = (2, 1, 2, 2) /\
  (exists y : tensor Z,
     concatenate_input_noise_map two_images [5%Z; 6%Z] = Ok y /\
     forall n c i j,
       n < 2 -> c < 1 -> i < 2 / 2 -> j < 2 / 2 ->
       nth_error [5%Z; 6%Z] n = Some (torch.get y n c i j)) /\
  (exists y : tensor spec_float,
     concatenate_input_noise_map (promotion := promote_int64_float32)
       float32_block int64_noise = Ok y /\
     forall n c i j,
       n < 1 -> c < 1 -> i < 2 / 2 -> j < 2 / 2 ->
       option_map float32_of_int64 (nth_error int64_noise n) =
       Some (torch.get y n c i j)).
Proof.
  split; [ reflexivity | split ].
  - apply (proj2 fold_noise_broadcast Z Dtype_Z two_images [5%Z; 6%Z]
             2 1 2 2); reflexivity.
  - apply (proj1 fold_noise_broadcast spec_float Z spec_float
             Dtype_float32 Dtype_Z Dtype_float32 promote_int64_float32
             float32_block int64_noise 1 1 2 2); reflexivity.
Defined.

(** C7, as stated, fails when the noise vector is [int64] and the image
    [float32]: the noise channel holds the float 16777216, the noise level
    is 16777217. *)
Lemma fold_noise_rounds_int64 :
  size float32_block = (1, 1, 2, 2) /\
  2 mod 2 = 0 /\
  List.length int64_noise = 1 /\
  nth_error int64_noise 0 = Some 16777217%Z /\
  exists y : tensor spec_float,
    concatenate_input_noise_map (promotion := promote_int64_float32)
      float32_block int64_noise = Ok y /\
    torch.get y 0 0 0 0 = S754_finite false 8388608 1 /\
    integer_value (torch.get y 0 0 0 0) = Some 16777216%Z /\
    integer_value (torch.get y 0 0 0 0) <> nth_error int64_noise 0.
Proof.
  repeat (split; [ reflexivity | ]).
  eexists. split; [ reflexivity | ]. repeat split. discriminate.
Qed.

Lemma fold_rejects_noise_length_witness :
  size block_2x2 = (1, 1, 2, 2) /\
  List.length [5%Z; 6%Z] <> 1 /\
  fails (concatenate_input_noise_map block_2x2 [5%Z; 6%Z]).
Proof.
  split; [ reflexivity | split; [ cbn; lia | ] ].
  apply (@fold_rejects_noise_length Z Z Z Dtype_Z Dtype_Z Dtype_Z (Promote_same Z)
           block_2x2 [5%Z; 6%Z] 1 1 2 2).
  - reflexivity.
  - cbn. lia.
Defined.

Lemma batch_noninterference_witness :
  nth_error (data two_images) 0 = nth_error (data two_images') 0 /\
  nth_error (data two_stacks) 0 = nth_error (data two_stacks') 0 /\
  (exists y y' : tensor Z,
     concatenate_input_noise_map two_images [5%Z; 6%Z] = Ok y /\
     concatenate_input_noise_map two_images' [5%Z; 7%Z] = Ok y' /\
     nth_error (data y) 0 = nth_error (data y') 0) /\
  (exists y y',
     UpSampleFeaturesFunction.forward two_stacks = Ok y /\
     UpSampleFeaturesFunction.forward two_stacks' = Ok y' /\
     nth_error (data y) 0 = nth_error (data y') 0) /\
  (exists b b',
     UpSampleFeaturesFunction.backward two_images = Ok b /\
     UpSampleFeaturesFunction.backward two_images' = Ok b' /\
     nth_error (data b) 0 = nth_error (data b') 0).
Proof.
  split; [ reflexivity | split; [ reflexivity | ] ].
  destruct (@batch_noninterference Z Z Z Dtype_Z Dtype_Z Dtype_Z (Promote_same Z) 0) as [Hfold [Hforward Hbackward]].
  split; [ | split ].
  - apply (Hfold two_images two_images' [5%Z; 6%Z] [5%Z; 7%Z] 2 2 1 2 2);
      solve [ reflexivity | lia ].
  - apply (Hforward two_stacks two_stacks' 2 2 4 1 1);
      solve [ reflexivity | lia ].
  - apply (Hbackward two_images two_images' 2 2 1 2 2);
      solve [ reflexivity | lia ].
Defined.

Lemma backward_after_forward_witness :
  torch.well_formed two_stacks = true /\
  size two_stacks = (2, 4, 1, 1) /\
  (y <- UpSampleFeaturesFunction.forward two_stacks ;;
   UpSampleFeaturesFunction.backward y) = Ok two_stacks.
Proof.
  split; [ reflexivity | split; [ reflexivity | ] ].
  apply (@backward_after_forward Z _ two_stacks 2 4 1 1); reflexivity.
Defined.

(** ** Further properties of the layers *)


Lemma interleaved_deinterleaved {A : Type} `{dtype : Dtype A}
    (g : tensor A) (N C H W : nat) :
  torch.well_formed g = true ->
  size g = (N, C, H, W) -> H mod 2 = 0 -> W mod 2 = 0 ->
  interleaved (deinterleaved g) = g.
Proof.
  intros Hwf Hsz HH HW.
  pose proof (size_deinterleaved _ Hsz) as Hsb.
  unfold interleaved. rewrite Hsb.
  transitivity (torch.tabulate (size g) (torch.get g));
    [ | exact (tabulate_get g Hwf) ].
  rewrite Hsz.
  replace (4 * C / 4) with C by lia.
  replace (H / 2 * 2) with H by lia.
  replace (W / 2 * 2) with W by lia.
  apply tabulate_ext. intros n c h w Hn Hc Hh Hw.
  rewrite (get_deinterleaved _ Hsz) by lia.
  f_equal; lia.
Qed.

(** Unfold's forward undoes its backward: on a gradient with even height
    and width, [forward (backward g)] is [g] itself. *)
Theorem forward_after_backward {A : Type} `{dtype : Dtype A}
    (g : tensor A) (N C H W : nat) :
  torch.well_formed g = true ->
  size g = (N, C, H, W) -> H mod 2 = 0 -> W mod 2 = 0 ->
  (b <- UpSampleFeaturesFunction.backward g ;;
   UpSampleFeaturesFunction.forward b) = Ok g.
Proof.
  intros Hwf Hsz HH HW.
  rewrite (backward_ok _ Hsz HH HW). cbn [bind].
  rewrite (forward_ok _ (size_deinterleaved _ Hsz)) by lia.
  f_equal. exact (interleaved_deinterleaved _ Hwf Hsz HH HW).
Qed.

Lemma folded_features_slice {A B R : Type} `{dtype : Dtype A}
    `{noise_dtype : Dtype B} `{result_dtype : Dtype R}
    `{promotion : Promote B A R}
    (x : tensor A) (noise_sigma : list B) (N C H W : nat) :
  size x = (N, C, H, W) ->
  torch.getitem (folded x noise_sigma)
    (slice_all, PSlice C None 1, slice_all, slice_all)
  = Ok (torch.convert (promote_r promotion) (deinterleaved x)).
Proof.
  intros Hsz.
  erewrite getitem_ok; [ | apply (size_folded _ _ Hsz) | reflexivity ].
  rewrite !slice_len_all, slice_len_from.
  replace (5 * C - C) with (4 * C) by lia.
  f_equal. unfold deinterleaved. rewrite Hsz, convert_of_tabulate.
  apply tabulate_ext. intros n c h w Hn Hc Hh Hw.
  rewrite !slice_at_all, slice_at_from by lia.
  now rewrite (get_folded_features _ _ Hsz) by lia.
Qed.

(** The feature block of Fold is the backward of Unfold applied to the
    image batch, converted to the type [torch.cat] promotes the noise and
    the image to: dropping the noise channels of
    [concatenate_input_noise_map x noise_sigma] gives [backward x] with
    each element converted, and exactly [backward x] when the noise vector
    has the element type of the image. *)
Theorem fold_features_are_backward :
  (forall (A B R : Type) (dtype : Dtype A) (noise_dtype : Dtype B)
          (result_dtype : Dtype R) (promotion : Promote B A R)
          (x : tensor A) (noise_sigma : list B) (N C H W : nat),
     size x = (N, C, H, W) -> H mod 2 = 0 -> W mod 2 = 0 ->
     List.length noise_sigma = N ->
     (y <- concatenate_input_noise_map x noise_sigma ;;
      torch.getitem y (slice_all, PSlice C None 1, slice_all, slice_all))
     = (b <- UpSampleFeaturesFunction.backward x ;;
        Ok (torch.convert (promote_r promotion) b)))
  /\
  (forall (A : Type) (dtype : Dtype A)
          (x : tensor A) (noise_sigma : list A) (N C H W : nat),
     size x = (N, C, H, W) -> H mod 2 = 0 -> W mod 2 = 0 ->
     List.length noise_sigma = N ->
     (y <- concatenate_input_noise_map (promotion := Promote_same A)
            x noise_sigma ;;
      torch.getitem y (slice_all, PSlice C None 1, slice_all, slice_all))
     = UpSampleFeaturesFunction.backward x).
Proof.
  split.
  - intros A B R dtype noise_dtype result_dtype promotion x noise_sigma
      N C H W Hsz HH HW Hlen.
    rewrite (concatenate_input_noise_map_ok _ _ Hsz HH HW Hlen).
    rewrite (backward_ok _ Hsz HH HW). cbn [bind].
    exact (folded_features_slice _ _ Hsz).
  - intros A dtype x noise_sigma N C H W Hsz HH HW Hlen.
    rewrite (concatenate_input_noise_map_ok _ _ Hsz HH HW Hlen).
    rewrite (backward_ok _ Hsz HH HW). cbn [bind].
    rewrite (folded_features_slice _ _ Hsz). f_equal.
    unfold deinterleaved. rewrite Hsz. apply convert_of_tabulate.
Qed.

(** For images of one element type and noise levels of one element type,
    the noise block of Fold does not depend on the pixels, and its feature
    block does not depend on the noise levels. *)
Theorem fold_blocks_are_separate {A B R : Type} `{dtype : Dtype A}
    `{noise_dtype : Dtype B} `{result_dtype : Dtype R}
    `{promotion : Promote B A R}
    (x x' : tensor A) (sigma sigma' : list B) (N C H W : nat) :
  size x = (N, C, H, W) -> size x' = (N, C, H, W) ->
  H mod 2 = 0 -> W mod 2 = 0 ->
  List.length sigma = N -> List.length sigma' = N ->
  (y <- concatenate_input_noise_map x sigma ;;
   torch.getitem y (slice_all, PSlice 0 (Some C) 1, slice_all, slice_all))
  = (y <- concatenate_input_noise_map x' sigma ;;
     torch.getitem y (slice_all, PSlice 0 (Some C) 1, slice_all, slice_all))
  /\
  (y <- concatenate_input_noise_map x sigma ;;
   torch.getitem y (slice_all, PSlice C None 1, slice_all, slice_all))
  = (y <- concatenate_input_noise_map x sigma' ;;
     torch.getitem y (slice_all, PSlice C None 1, slice_all, slice_all)).
Proof.
  intros Hsz Hsz' HH HW Hlen Hlen'. split.
  - rewrite (concatenate_input_noise_map_ok _ _ Hsz HH HW Hlen).
    rewrite (concatenate_input_noise_map_ok _ _ Hsz' HH HW Hlen).
    cbn [bind].
    erewrite getitem_ok; [ | apply (size_folded _ _ Hsz) | reflexivity ].
    erewrite getitem_ok; [ | apply (size_folded _ _ Hsz') | reflexivity ].
    f_equal. rewrite !slice_len_all.
    assert (HC : slice_len (PSlice 0 (Some C) 1) (5 * C) = C)
      by (slice_unfold; lia).
    rewrite HC. apply tabulate_ext. intros n c h w Hn Hc Hh Hw.
    rewrite !slice_at_all.
    replace (slice_at (PSlice 0 (Some C) 1) (5 * C) c) with c
      by (slice_unfold; lia).
    rewrite (get_folded_noise _ _ Hsz), (get_folded_noise _ _ Hsz') by lia.
    reflexivity.
  - rewrite (concatenate_input_noise_map_ok _ _ Hsz HH HW Hlen).
    rewrite (concatenate_input_noise_map_ok _ _ Hsz HH HW Hlen').
    cbn [bind].
    now rewrite !(folded_features_slice _ _ Hsz).
Qed.

(** Unfold cannot be applied to the whole result of Fold unless the image
    has a multiple of 4 channels: with the noise block included the tensor
    has [5 * C] channels, and the assertion of [forward] fails. *)
Theorem forward_rejects_folded {A B R : Type} `{dtype : Dtype A}
    `{noise_dtype : Dtype B} `{result_dtype : Dtype R}
    `{promotion : Promote B A R}
    (x : tensor A) (noise_sigma : list B) (N C H W : nat) :
  size x = (N, C, H, W) -> H mod 2 = 0 -> W mod 2 = 0 ->
  List.length noise_sigma = N -> C mod 4 <> 0 ->
  (y <- concatenate_input_noise_map x noise_sigma ;;
   UpSampleFeaturesFunction.forward y) =
  Raise (AssertionError
    "Invalid input dimensions: number of channels should be divisible by 4").
Proof.
  intros Hsz HH HW Hlen HC.
  rewrite (concatenate_input_noise_map_ok _ _ Hsz HH HW Hlen). cbn [bind].
  apply (forward_asserts _ (size_folded _ _ Hsz)). lia.
Qed.

(** *** Gradients with an odd height or width *)

Lemma backward_odd_from_3_raises {A : Type} `{dtype : Dtype A}
    (g : tensor A) (N C H W : nat) :
  size g = (N, C, H, W) ->
  (H mod 2 = 1 /\ 3 <= H) \/ (W mod 2 = 1 /\ 3 <= W) ->
  fails (UpSampleFeaturesFunction.backward g).
Proof.
  intros Hsz Hodd. rewrite (backward_unfold _ Hsz).
  apply fails_bind.
  unfold for_range. cbn [seq for_each]. apply fails_bind.
  unfold deinterleave_body.
  cbn [idxL_at idxL subscript nth_error bind].
  erewrite getitem_ok; [ | exact Hsz | reflexivity ].
  cbn [bind].
  eapply setitem_raises;
    [ apply size_tabulate | apply size_tabulate
    | now apply first_patch_not_expandable ].
Qed.

Lemma backward_single {A : Type} `{dtype : Dtype A}
    (g : tensor A) (N C H W : nat) :
  size g = (N, C, H, W) ->
  H mod 2 = 0 \/ H = 1 -> W mod 2 = 0 \/ W = 1 -> H = 1 \/ W = 1 ->
  UpSampleFeaturesFunction.backward g =
  Ok (torch.tabulate (N, 4 * C, H / 2, W / 2) (fun _ _ _ _ => zero)).
Proof.
  intros Hsz HH HW Hone. rewrite (backward_unfold _ Hsz).
  unfold torch.zeros, for_range. cbn [seq for_each].
  do 4 (rewrite (@deinterleave_step_single _ _ g N C H W _ _ Hsz)
          by (assumption || lia);
        cbn [bind]).
  reflexivity.
Qed.

(** [backward] has no check of the gradient's height and width. It raises
    exactly when one of them is odd and different from 1; a gradient with a
    single row or column is accepted and gives a tensor without
    elements. *)
Theorem backward_fails_iff {A : Type} `{dtype : Dtype A}
    (g : tensor A) (N C H W : nat) :
  size g = (N, C, H, W) ->
  fails (UpSampleFeaturesFunction.backward g) <->
  (H mod 2 = 1 /\ H <> 1) \/ (W mod 2 = 1 /\ W <> 1).
Proof.
  intros Hsz. split.
  - intros [e He].
    assert (Hcases :
      ((H mod 2 = 1 /\ H <> 1) \/ (W mod 2 = 1 /\ W <> 1))
      \/ (H mod 2 = 0 /\ W mod 2 = 0)
      \/ ((H mod 2 = 0 \/ H = 1) /\ (W mod 2 = 0 \/ W = 1)
          /\ (H = 1 \/ W = 1))) by lia.
    destruct Hcases as [Hodd | [[HH HW] | [HH [HW Hone]]]].
    + exact Hodd.
    + rewrite (backward_ok _ Hsz HH HW) in He. discriminate He.
    + rewrite (backward_single _ Hsz HH HW Hone) in He. discriminate He.
  - intros Hodd. apply (backward_odd_from_3_raises _ Hsz). lia.
Qed.

(** A gradient with a single row or a single column (and the other
    dimension even or 1) loses all its elements in [backward]: the result
    has height or width 0. *)
Theorem backward_drops_single_row_or_column {A : Type} `{dtype : Dtype A}
    (g : tensor A) (N C H W : nat) :
  size g = (N, C, H, W) ->
  H mod 2 = 0 \/ H = 1 -> W mod 2 = 0 \/ W = 1 -> H = 1 \/ W = 1 ->
  exists b,
    UpSampleFeaturesFunction.backward g = Ok b /\
    size b = (N, 4 * C, H / 2, W / 2) /\
    elements b = [].
Proof.
  intros Hsz HH HW Hone.
  eexists. split; [ exact (backward_single _ Hsz HH HW Hone) | ].
  split; [ apply size_tabulate | ].
  unfold elements, torch.tabulate. cbn [data].
  assert (Hempty : H / 2 = 0 \/ W / 2 = 0) by lia.
  generalize (H / 2) (W / 2) Hempty. clear. intros h w Hempty.
  induction (seq 0 N) as [ | n ns IHn ]; [ reflexivity | ].
  cbn [map List.concat]. rewrite !concat_app, IHn, app_nil_r.
  clear IHn. induction (seq 0 (4 * C)) as [ | c cs IHc ]; [ reflexivity | ].
  cbn [map List.concat]. rewrite concat_app, IHc, app_nil_r.
  clear IHc. destruct Hempty as [-> | ->]; [ reflexivity | ].
  induction (seq 0 h) as [ | i rows IHi ]; [ reflexivity | ].
  cbn [map List.concat seq]. exact IHi.
Qed.

(** *** The layers only move elements *)

Section Counting.
Context {A : Type} `{dtype : Dtype A}.
Variable eq_dec : forall a b : A, {a = b} + {a <> b}.

Local Abbreviation natsum := (@bigsum nat Dtype_nat Nat.add).

Lemma concat_concat_map {B C : Type} (g : B -> list (list C)) (l : list B) :
  List.concat (List.concat (map g l)) =
  List.concat (map (fun b => List.concat (g b)) l).
Proof.
  induction l as [ | b l IH ]; [ reflexivity | ].
  cbn [map List.concat]. now rewrite concat_app, IH.
Qed.

Lemma count_occ_concat_map_seq (g : nat -> list A) (k : nat) (v : A) :
  count_occ eq_dec (List.concat (map g (seq 0 k))) v =
  natsum k (fun i => count_occ eq_dec (g i) v).
Proof.
  induction k as [ | k IH ]; [ reflexivity | ].
  rewrite seq_S, map_app, concat_app, count_occ_app, IH.
  cbn [map List.concat bigsum Nat.add]. now rewrite app_nil_r.
Qed.

Lemma count_occ_map_seq (f : nat -> A) (k : nat) (v : A) :
  count_occ eq_dec (map f (seq 0 k)) v =
  natsum k (fun i => if eq_dec (f i) v then 1 else 0).
Proof.
  induction k as [ | k IH ]; [ reflexivity | ].
  rewrite seq_S, map_app, count_occ_app, IH.
  cbn [map bigsum Nat.add count_occ]. now destruct (eq_dec (f k) v).
Qed.

Lemma count_occ_elements_tabulate (N C H W : nat)
    (f : nat -> nat -> nat -> nat -> A) (v : A) :
  count_occ eq_dec (elements (torch.tabulate (N, C, H, W) f)) v =
  natsum N (fun n =>
    natsum C (fun c =>
      natsum H (fun h =>
        natsum W (fun w => if eq_dec (f n c h w) v then 1 else 0)))).
Proof.
  unfold elements, torch.tabulate. cbn [data].
  rewrite concat_concat_map, concat_concat_map.
  rewrite count_occ_concat_map_seq. apply bigsum_ext. intros n _.
  rewrite concat_concat_map.
  rewrite count_occ_concat_map_seq. apply bigsum_ext. intros c _.
  rewrite count_occ_concat_map_seq. apply bigsum_ext. intros h _.
  apply count_occ_map_seq.
Qed.

Lemma interleaved_permutes (x : tensor A) (N Cin Hin Win : nat) :
  torch.well_formed x = true ->
  size x = (N, Cin, Hin, Win) -> Cin mod 4 = 0 ->
  Permutation (elements (interleaved x)) (elements x).
Proof.
  intros Hwf Hsz Hmod.
  apply (Permutation_count_occ eq_dec). intros v.
  rewrite <- (tabulate_get x Hwf) at 2.
  unfold interleaved. rewrite Hsz.
  rewrite !count_occ_elements_tabulate.
  assert (HC : Cin = 4 * (Cin / 4)) by lia.
  set (Cq := Cin / 4) in *. clearbody Cq. subst Cin.
  apply bigsum_ext. intros n _.
  rewrite (Nat.mul_comm Hin 2), (Nat.mul_comm Win 2).
  apply (@bigsum_depth_to_space nat Dtype_nat Nat.add Nat.mul
           Nat.add_comm Nat.add_assoc eq_refl Cq Hin Win
           (fun c' i j => if eq_dec (torch.get x n c' i j) v then 1 else 0)).
Qed.

(** [forward] only moves elements: the elements of its result are a
    rearrangement of the elements of its input, none added, dropped or
    changed. *)
Theorem forward_permutes (x : tensor A) (N Cin Hin Win : nat) :
  torch.well_formed x = true ->
  size x = (N, Cin, Hin, Win) -> Cin mod 4 = 0 ->
  exists y,
    UpSampleFeaturesFunction.forward x = Ok y /\
    Permutation (elements y) (elements x).
Proof.
  intros Hwf Hsz Hmod. exists (interleaved x). split.
  - exact (forward_ok _ Hsz Hmod).
  - exact (@interleaved_permutes x N Cin Hin Win Hwf Hsz Hmod).
Qed.

(** [backward] only moves elements when the gradient has even height and
    width. *)
Theorem backward_permutes (g : tensor A) (N C H W : nat) :
  torch.well_formed g = true ->
  size g = (N, C, H, W) -> H mod 2 = 0 -> W mod 2 = 0 ->
  exists b,
    UpSampleFeaturesFunction.backward g = Ok b /\
    Permutation (elements b) (elements g).
Proof.
  intros Hwf Hsz HH HW. exists (deinterleaved g). split.
  - exact (backward_ok _ Hsz HH HW).
  - apply Permutation_sym.
    rewrite <- (interleaved_deinterleaved _ Hwf Hsz HH HW) at 1.
    apply (@interleaved_permutes (deinterleaved g) N (4 * C) (H / 2) (W / 2)).
    + unfold deinterleaved. rewrite Hsz. apply well_formed_tabulate.
    + exact (size_deinterleaved _ Hsz).
    + lia.
Qed.

End Counting.

(** ** Paths: the worked values *)

Example splitext_two_dots :
  os_path.splitext "a/b.tar.gz" = ("a/b.tar", ".gz")%string.
Proof. reflexivity. Qed.

Example splitext_hidden :
  os_path.splitext "dir/.bashrc" = ("dir/.bashrc", "")%string.
Proof. reflexivity. Qed.

Example splitext_dot_in_directory :
  os_path.splitext "a.b/c" = ("a.b/c", "")%string.
Proof. reflexivity. Qed.

Example splitext_hidden_with_extension :
  os_path.splitext "a/..x.y" = ("a/..x", ".y")%string.
Proof. reflexivity. Qed.

Example split_url :
  str.split "/" "http://h/a/" = ["http:"; ""; "h"; "a"; ""]%string.
Proof. reflexivity. Qed.

Example join_examples :
  os_path.join "networks" "generator.zip" = "networks/generator.zip"%string
  /\ os_path.join "d/" "f" = "d/f"%string
  /\ os_path.join "" "f" = "f"%string
  /\ os_path.join "d" "/f" = "/f"%string.
Proof. repeat split. Qed.

Example str_of_nat_examples :
  str.of_nat 0 = "0"%string /\ str.of_nat 10 = "10"%string
  /\ str.of_nat 576 = "576"%string.
Proof. repeat split. Qed.

(** ** Facts about strings *)

Section StringFacts.
Local Open Scope string_scope.

Lemma string_length_append (a b : string) :
  String.length (a ++ b) = String.length a + String.length b.
Proof. induction a as [ | c a IH ]; cbn; [ reflexivity | now rewrite IH ]. Qed.

Lemma string_append_assoc (a b c : string) : (a ++ b) ++ c = a ++ (b ++ c).
Proof. induction a as [ | x a IH ]; cbn; [ reflexivity | now rewrite IH ]. Qed.

Lemma string_append_nil_r (a : string) : a ++ "" = a.
Proof. induction a as [ | x a IH ]; cbn; [ reflexivity | now rewrite IH ]. Qed.

Lemma string_append_inj_l (a b c : string) : a ++ b = a ++ c -> b = c.
Proof.
  induction a as [ | x a IH ]; cbn; intros E; [ exact E | ].
  injection E as E. now apply IH.
Qed.

Lemma string_append_inj_r (a b c : string) : a ++ c = b ++ c -> a = b.
Proof.
  revert b. induction a as [ | x a IH ]; intros [ | y b ] E; cbn in E.
  - reflexivity.
  - apply (f_equal String.length) in E. cbn in E.
    rewrite string_length_append in E. lia.
  - apply (f_equal String.length) in E. cbn in E.
    rewrite string_length_append in E. lia.
  - injection E as -> E. f_equal. now apply IH.
Qed.

Lemma of_nat_inj (j k : nat) : str.of_nat j = str.of_nat k -> j = k.
Proof.
  unfold str.of_nat. intros E.
  apply DecimalNat.Unsigned.to_uint_inj.
  apply (f_equal NilEmpty.uint_of_string) in E.
  rewrite !NilEmpty.usu in E. now injection E.
Qed.

(** Cutting a string at an index and putting the parts together. *)
Lemma upto_from (n : nat) (s : string) : str.upto n s ++ str.from n s = s.
Proof.
  unfold str.upto, str.from. revert n.
  induction s as [ | c s IH ]; intros [ | n ]; cbn; try reflexivity.
  - f_equal. clear IH. induction s as [ | d s IH ]; cbn; [ reflexivity | ].
    now rewrite IH.
  - f_equal. apply IH.
Qed.

Lemma splitext_scan_cases (p : string) (d n i : nat) :
  os_path.splitext_scan p d n i = (p, "")
  \/ os_path.splitext_scan p d n i = (str.upto d p, str.from d p).
Proof.
  revert i. induction n as [ | n IH ]; intros i; cbn; [ now left | ].
  destruct (negb (substring i 1 p =? ".")); [ now right | apply IH ].
Qed.

(** The two parts [os.path.splitext] returns make up its argument. *)
Lemma splitext_append (p : string) :
  fst (os_path.splitext p) ++ snd (os_path.splitext p) = p.
Proof.
  unfold os_path.splitext.
  destruct (str.rfind "." p >? str.rfind "/" p)%Z.
  - destruct (splitext_scan_cases p (Z.to_nat (str.rfind "." p))
      (Z.to_nat (str.rfind "." p - (str.rfind "/" p + 1)))
      (Z.to_nat (str.rfind "/" p + 1))) as [-> | ->]; cbn [fst snd].
    + apply string_append_nil_r.
    + apply upto_from.
  - apply string_append_nil_r.
Qed.

End StringFacts.

(** ** [get_unique_save_path] *)

Section UniquePath.
Local Open Scope string_scope.

Lemma numbered_path_succ (p : string) (k : nat) :
  webui.numbered_path p (S k) =
  fst (os_path.splitext p) ++ "_" ++ str.of_nat (S k)
    ++ snd (os_path.splitext p).
Proof.
  unfold webui.numbered_path. now destruct (os_path.splitext p).
Qed.

Lemma numbered_path_inj (p : string) (j k : nat) :
  webui.numbered_path p j = webui.numbered_path p k -> j = k.
Proof.
  destruct j as [ | j ], k as [ | k ]; intros E.
  - reflexivity.
  - rewrite numbered_path_succ in E. cbn [webui.numbered_path] in E.
    rewrite <- (splitext_append p) in E at 1.
    apply string_append_inj_l in E.
    apply (f_equal String.length) in E. cbn in E.
    rewrite string_length_append in E. lia.
  - rewrite numbered_path_succ in E. cbn [webui.numbered_path] in E.
    rewrite <- (splitext_append p) in E at 3.
    apply string_append_inj_l in E.
    apply (f_equal String.length) in E. cbn in E.
    rewrite string_length_append in E. lia.
  - rewrite !numbered_path_succ in E.
    apply string_append_inj_l in E. cbn in E. injection E as E.
    apply string_append_inj_r in E. now apply of_nat_inj.
Qed.

Variable path_exists : string -> bool.

(** The loop, started at the [j]-th path it tests. *)
Lemma loop_from (p : string) (j : nat) (fuel : nat) :
  webui.get_unique_save_path_loop path_exists fuel
    (fst (os_path.splitext p)) (snd (os_path.splitext p))
    (webui.numbered_path p j) (j + 1) =
  match fuel with
  | 0 => None
  | S fuel' =>
      if path_exists (webui.numbered_path p j)
      then webui.get_unique_save_path_loop path_exists fuel'
             (fst (os_path.splitext p)) (snd (os_path.splitext p))
             (webui.numbered_path p (j + 1)) (j + 1 + 1)
      else Some (webui.numbered_path p j)
  end.
Proof.
  destruct fuel as [ | fuel ]; [ reflexivity | ].
  cbn [webui.get_unique_save_path_loop].
  replace (j + 1) with (S j) by lia. now rewrite numbered_path_succ.
Qed.

Lemma loop_spec (p : string) (fuel j : nat) (q : string) :
  webui.get_unique_save_path_loop path_exists fuel
    (fst (os_path.splitext p)) (snd (os_path.splitext p))
    (webui.numbered_path p j) (j + 1) = Some q
  <->
  exists k, j <= k /\ k < j + fuel /\ q = webui.numbered_path p k
    /\ path_exists (webui.numbered_path p k) = false
    /\ forall i, j <= i -> i < k ->
         path_exists (webui.numbered_path p i) = true.
Proof.
  revert j. induction fuel as [ | fuel IH ]; intros j; rewrite loop_from.
  - split; [ discriminate | ]. intros [k [Hjk [Hk _]]]. lia.
  - destruct (path_exists (webui.numbered_path p j)) eqn:Ej.
    + rewrite IH. split.
      * intros [k [Hjk [Hk [Hq [Hfree Hbefore]]]]].
        exists k. repeat split; try assumption; try lia.
        intros i Hi Hik.
        destruct (Nat.eq_dec i j) as [-> | Hne]; [ exact Ej | ].
        apply Hbefore; lia.
      * intros [k [Hjk [Hk [Hq [Hfree Hbefore]]]]].
        assert (Hne : k <> j) by (intros ->; congruence).
        exists k. repeat split; try assumption; try lia.
        intros i Hi Hik. apply Hbefore; lia.
    + split.
      * intros E. injection E as <-.
        exists j. repeat split; try assumption; try lia.
      * intros [k [Hjk [Hk [Hq [Hfree Hbefore]]]]].
        destruct (Nat.eq_dec k j) as [-> | Hne]; [ now rewrite Hq | ].
        rewrite (Hbefore j) in Ej by lia. discriminate Ej.
Qed.

Lemma get_unique_save_path_spec (p : string) (fuel : nat) (q : string) :
  webui.get_unique_save_path path_exists fuel p = Some q
  <->
  exists k, k < fuel /\ q = webui.numbered_path p k
    /\ path_exists (webui.numbered_path p k) = false
    /\ forall i, i < k -> path_exists (webui.numbered_path p i) = true.
Proof.
  unfold webui.get_unique_save_path.
  pose proof (loop_spec p fuel 0 q) as Hloop.
  cbn [webui.numbered_path Nat.add] in Hloop.
  destruct (os_path.splitext p) as [base ext]. cbn [fst snd] in Hloop.
  rewrite Hloop. split.
  - intros [k [_ [Hk [Hq [Hfree Hbefore]]]]].
    exists k. repeat split; try assumption.
    intros i Hi. apply Hbefore; lia.
  - intros [k [Hk [Hq [Hfree Hbefore]]]].
    exists k. repeat split; try assumption; try lia.
    intros i _ Hi. now apply Hbefore.
Qed.

End UniquePath.

(** [get_unique_save_path] returns the first path that does not exist in
    the sequence [save_path], [base_1ext], [base_2ext], ...: it returns [q]
    within [fuel] tests exactly when [q] is the [k]-th path of the sequence
    for some [k < fuel], [q] does not exist and all the earlier ones do. In
    particular the result never exists, and [save_path] itself is returned
    when it does not exist. *)
Theorem get_unique_save_path_first_free (path_exists : string -> bool)
    (save_path : string) (fuel : nat) (q : string) :
  webui.get_unique_save_path path_exists fuel save_path = Some q
  <->
  exists k, k < fuel /\ q = webui.numbered_path save_path k
    /\ path_exists q = false
    /\ forall i, i < k ->
         path_exists (webui.numbered_path save_path i) = true.
Proof.
  rewrite get_unique_save_path_spec. split.
  - intros [k [Hk [Hq [Hfree Hbefore]]]]. exists k. now subst q.
  - intros [k [Hk [Hq [Hfree Hbefore]]]]. exists k. now subst q.
Qed.

(** The first index at which a boolean predicate fails, below a bound. *)
Lemma all_or_first (P : nat -> bool) (n : nat) :
  (forall k, k < n -> P k = true)
  \/ exists k, k < n /\ P k = false /\ forall i, i < k -> P i = true.
Proof.
  induction n as [ | n [Hall | [k [Hk [Hfalse Hbefore]]]] ].
  - left. intros k Hk. lia.
  - destruct (P n) eqn:En.
    + left. intros k Hk.
      destruct (Nat.eq_dec k n) as [-> | Hne]; [ exact En | ].
      apply Hall. lia.
    + right. exists n. repeat split; [ lia | exact En | ].
      intros i Hi. now apply Hall.
  - right. exists k. repeat split; [ lia | exact Hfalse | exact Hbefore ].
Qed.

Lemma listed_In (files : list string) (path : string) :
  webui.listed files path = true <-> In path files.
Proof.
  unfold webui.listed. rewrite existsb_exists. split.
  - intros [f [Hin Heq]]. apply String.eqb_eq in Heq. now subst f.
  - intros Hin. exists path. split; [ exact Hin | apply String.eqb_refl ].
Qed.

(** On a file system with finitely many paths the loop of
    [get_unique_save_path] ends: after at most one more test than there
    are paths it returns a path that is not among them. *)
Theorem get_unique_save_path_terminates (files : list string)
    (save_path : string) (fuel : nat) :
  List.length files < fuel ->
  exists q k,
    webui.get_unique_save_path (webui.listed files) fuel save_path = Some q
    /\ q = webui.numbered_path save_path k
    /\ k <= List.length files
    /\ ~ In q files.
Proof.
  intros Hfuel.
  destruct (all_or_first
              (fun k => webui.listed files (webui.numbered_path save_path k))
              (S (List.length files)))
    as [Hall | [k [Hk [Hfree Hbefore]]]].
  - exfalso.
    assert (Hlen :
      List.length (map (webui.numbered_path save_path)
                      (seq 0 (S (List.length files))))
      <= List.length files).
    { apply NoDup_incl_length.
      - apply Finite.Injective_map_NoDup; [ | apply seq_NoDup ].
        intros i j. apply numbered_path_inj.
      - intros q Hq. apply in_map_iff in Hq. destruct Hq as [i [<- Hi]].
        apply in_seq in Hi. apply listed_In. apply Hall. lia. }
    rewrite length_map, length_seq in Hlen. lia.
  - exists (webui.numbered_path save_path k), k.
    split; [ | split; [ reflexivity | split; [ lia | ] ] ].
    + apply get_unique_save_path_spec. exists k.
      repeat split; [ lia | exact Hfree | exact Hbefore ].
    + intros Hin. apply listed_In in Hin. congruence.
Qed.

(** ** [upscale_image] *)

(** When [upscale_image] returns, the path it returns, which is the path
    it passed to the upscaler after [-o], is [output_path] itself exactly
    when the extension of [output_path] is a dot followed by
    [output_format]; so the calls [upscale_image(path, path, ...)] of
    [load_image] overwrite their input exactly in that case. *)
Theorem upscale_image_in_place (world : Type) (platform_system : string)
    (subprocess_run : list string -> world -> result world)
    (input_path output_path model_name output_format : string)
    (scale : nat) (w w' : world) (q : string) :
  webui.upscale_image platform_system subprocess_run
    input_path output_path model_name output_format scale w = Ok (q, w') ->
  (q = output_path <->
   snd (os_path.splitext output_path) = String.append "." output_format)
  /\ exists command,
       subprocess_run command w = Ok w'
       /\ nth_error command 3 = Some "-o"%string
       /\ nth_error command 4 = Some q.
Proof.
  unfold webui.upscale_image.
  pose proof (splitext_append output_path) as Hparts.
  destruct (os_path.splitext output_path) as [base ext].
  cbn [fst snd] in Hparts |- *.
  destruct (subprocess_run _ w) as [w1 | e] eqn:Hrun; cbn [bind];
    [ | discriminate ].
  intros E. injection E as <- <-. split.
  - split.
    + intros E. rewrite <- Hparts in E.
      apply string_append_inj_l in E. now symmetry.
    + intros ->. exact Hparts.
  - eexists. split; [ exact Hrun | split; reflexivity ].
Qed.

(** ** [download_file] of [webui_utils/download.py] *)

Section Download.
Local Open Scope string_scope.




End Download.

(** ** The extension of a numbered path *)

Section Extension.
Local Open Scope string_scope.

Lemma rfind_bounds (c : ascii) (s : string) :
  (-1 <= str.rfind c s < Z.of_nat (String.length s))%Z.
Proof.
  induction s as [ | a s IH ]; cbn [str.rfind String.length]; [ lia | ].
  destruct (0 <=? str.rfind c s)%Z eqn:E; [ lia | ].
  destruct (Ascii.eqb a c); lia.
Qed.

Lemma rfind_absent (c : ascii) (s : string) :
  str.contains c s = false -> str.rfind c s = (-1)%Z.
Proof.
  induction s as [ | a s IH ]; cbn [str.rfind str.contains];
    [ reflexivity | ].
  intros Hno. apply orb_false_iff in Hno. destruct Hno as [Ha Hs].
  rewrite (IH Hs), Ha. reflexivity.
Qed.

Lemma rfind_app (c : ascii) (a b : string) :
  str.rfind c (a ++ b) =
  if (0 <=? str.rfind c b)%Z
  then (Z.of_nat (String.length a) + str.rfind c b)%Z
  else str.rfind c a.
Proof.
  pose proof (rfind_bounds c b) as Hb.
  induction a as [ | x a IH ]; cbn [String.append str.rfind String.length].
  - destruct (0 <=? str.rfind c b)%Z eqn:E; lia.
  - rewrite IH. destruct (0 <=? str.rfind c b)%Z eqn:E; [ | reflexivity ].
    destruct (0 <=? Z.of_nat (String.length a) + str.rfind c b)%Z eqn:E';
      lia.
Qed.

Lemma rfind_app_absent (c : ascii) (a t : string) :
  str.contains c t = false -> str.rfind c (a ++ t) = str.rfind c a.
Proof.
  intros Hno. rewrite rfind_app, (rfind_absent _ _ Hno). reflexivity.
Qed.

Lemma substring_whole (s : string) : substring 0 (String.length s) s = s.
Proof. induction s as [ | c s IH ]; cbn; [ reflexivity | now rewrite IH ]. Qed.

Lemma upto_app (a b : string) : str.upto (String.length a) (a ++ b) = a.
Proof.
  unfold str.upto. induction a as [ | c a IH ]; cbn.
  - now destruct b.
  - now rewrite IH.
Qed.

Lemma from_app (a b : string) : str.from (String.length a) (a ++ b) = b.
Proof.
  unfold str.from. induction a as [ | c a IH ]; cbn.
  - rewrite Nat.sub_0_r. apply substring_whole.
  - exact IH.
Qed.

Lemma length_upto (n : nat) (s : string) :
  n <= String.length s -> String.length (str.upto n s) = n.
Proof.
  unfold str.upto. revert n.
  induction s as [ | c s IH ]; intros [ | n ] Hn; cbn in *;
    try reflexivity; try lia.
  rewrite IH; lia.
Qed.

Lemma substring_one_app (a b : string) (j : nat) :
  j < String.length a -> substring j 1 (a ++ b) = substring j 1 a.
Proof.
  revert j. induction a as [ | c a IH ]; intros j Hj; cbn in Hj; [ lia | ].
  destruct j as [ | j ]; cbn; [ now destruct a, b | ].
  apply IH. lia.
Qed.

(** Whether the characters at [i], ..., [i + n - 1] are all dots. *)
Lemma splitext_scan_decides (p : string) (d n i : nat) :
  os_path.splitext_scan p d n i =
  if forallb (fun j => substring j 1 p =? ".") (seq i n)
  then (p, "") else (str.upto d p, str.from d p).
Proof.
  revert i. induction n as [ | n IH ]; intros i; [ reflexivity | ].
  cbn [os_path.splitext_scan seq forallb].
  destruct (substring i 1 p =? "."); cbn [negb andb]; [ | reflexivity ].
  replace (i + 1) with (S i) by lia. apply IH.
Qed.

Lemma forallb_seq_ext (f g : nat -> bool) (i n : nat) :
  (forall j, i <= j -> j < i + n -> f j = g j) ->
  forallb f (seq i n) = forallb g (seq i n).
Proof.
  revert i. induction n as [ | n IH ]; intros i Hfg; [ reflexivity | ].
  cbn [seq forallb]. rewrite (Hfg i) by lia. f_equal.
  apply IH. intros j Hj Hjn. apply Hfg; lia.
Qed.

Lemma forallb_seq_longer (f : nat -> bool) (i n m : nat) :
  forallb f (seq i n) = false -> forallb f (seq i (n + m)) = false.
Proof.
  intros Hf. rewrite seq_app, forallb_app, Hf. reflexivity.
Qed.

(** Putting a piece without dot or slash between the two parts of
    [splitext] leaves the extension as it is. *)
Lemma splitext_insert (a b t : string) :
  os_path.splitext (a ++ b) = (a, b) ->
  str.contains "." t = false -> str.contains "/" t = false ->
  os_path.splitext (a ++ t ++ b) = (a ++ t, b).
Proof.
  intros Hsplit Hdot Hsep.
  pose proof (rfind_bounds "." (a ++ b)) as Hbd.
  pose proof (rfind_bounds "/" (a ++ b)) as Hbs.
  unfold os_path.splitext in Hsplit.
  rewrite splitext_scan_decides in Hsplit.
  remember (str.rfind "/" (a ++ b)) as s eqn:Hs.
  remember (str.rfind "." (a ++ b)) as d eqn:Hd.
  destruct (d >? s)%Z eqn:Hds.
  - destruct (forallb (fun j => substring j 1 (a ++ b) =? ".")
                (seq (Z.to_nat (s + 1)) (Z.to_nat (d - (s + 1)))))
      eqn:Hdots.
    + (* the file name is made of leading dots up to the last dot *)
      injection Hsplit as Ha Hb. subst b.
      rewrite string_append_nil_r in *.
      unfold os_path.splitext.
      rewrite !rfind_app_absent by assumption. rewrite <- Hs, <- Hd, Hds.
      rewrite splitext_scan_decides.
      rewrite (forallb_seq_ext _ (fun j => substring j 1 a =? "."));
        [ now rewrite Hdots | ].
      intros j Hj Hjd. rewrite substring_one_app; [ reflexivity | lia ].
    + (* the extension starts at the last dot *)
      injection Hsplit as Ha Hb.
      apply Z.gtb_lt in Hds.
      assert (Hlen : String.length a = Z.to_nat d).
      { rewrite <- Ha at 1. apply length_upto. lia. }
      assert (Hsb : str.rfind "/" b = (-1)%Z /\ str.rfind "/" a = s).
      { pose proof (rfind_bounds "/" b) as Hb'.
        pose proof (rfind_app "/" a b) as Happ. rewrite <- Hs in Happ.
        destruct (0 <=? str.rfind "/" b)%Z eqn:E; lia. }
      assert (Hdb : str.rfind "." b = 0%Z).
      { pose proof (rfind_bounds "." a) as Ha'.
        pose proof (rfind_bounds "." b) as Hb'.
        pose proof (rfind_app "." a b) as Happ. rewrite <- Hd in Happ.
        destruct (0 <=? str.rfind "." b)%Z eqn:E; lia. }
      destruct Hsb as [Hsb Hsa].
      assert (Hs' : str.rfind "/" (a ++ t ++ b) = s).
      { rewrite rfind_app, rfind_app, Hsb.
        rewrite (rfind_absent _ _ Hsep). cbn. exact Hsa. }
      assert (Hd' : str.rfind "." (a ++ t ++ b) =
                    Z.of_nat (String.length (a ++ t))).
      { rewrite rfind_app, rfind_app, Hdb. cbn [Z.leb Z.compare].
        replace (0 <=? Z.of_nat (String.length t) + 0)%Z with true
          by (symmetry; apply Z.leb_le; lia).
        rewrite string_length_append. lia. }
      unfold os_path.splitext. rewrite Hs', Hd'.
      replace (Z.of_nat (String.length (a ++ t)) >? s)%Z with true
        by (symmetry; apply Z.gtb_lt; rewrite string_length_append; lia).
      rewrite splitext_scan_decides, Nat2Z.id.
      rewrite <- string_append_assoc, upto_app, from_app.
      replace (Z.to_nat (Z.of_nat (String.length (a ++ t)) - (s + 1)))
        with (Z.to_nat (d - (s + 1)) + String.length t)
        by (rewrite string_length_append; lia).
      rewrite forallb_seq_longer; [ reflexivity | ].
      rewrite (forallb_seq_ext _
                 (fun j => substring j 1 (a ++ b) =? "."));
        [ exact Hdots | ].
      intros j Hj Hjd.
      rewrite string_append_assoc.
      rewrite !substring_one_app by lia. reflexivity.
  - injection Hsplit as Ha Hb. subst b.
    rewrite string_append_nil_r in *.
    unfold os_path.splitext.
    rewrite !rfind_app_absent by assumption. now rewrite <- Hs, <- Hd, Hds.
Qed.

End Extension.

Section KeepsExtension.
Local Open Scope string_scope.

Lemma digits_contain_no (c : ascii) (d : Decimal.uint) :
  c = "."%char \/ c = "/"%char ->
  str.contains c (NilEmpty.string_of_uint d) = false.
Proof.
  intros [-> | ->]; induction d as [ | d IH | d IH | d IH | d IH | d IH
    | d IH | d IH | d IH | d IH | d IH ]; cbn; try reflexivity; exact IH.
Qed.

Lemma counter_suffix_contains_no (c : ascii) (k : nat) :
  c = "."%char \/ c = "/"%char ->
  str.contains c ("_" ++ str.of_nat k) = false.
Proof.
  intros Hc. cbn [String.append str.contains].
  unfold str.of_nat. rewrite (digits_contain_no _ Hc).
  now destruct Hc as [-> | ->].
Qed.

(** The path [get_unique_save_path] returns has the extension of
    [save_path]: it is [save_path] itself, or its part before the extension
    is that of [save_path] followed by an underscore and a counter. *)
Theorem get_unique_save_path_keeps_extension (path_exists : string -> bool)
    (save_path : string) (fuel : nat) (q : string) :
  webui.get_unique_save_path path_exists fuel save_path = Some q ->
  snd (os_path.splitext q) = snd (os_path.splitext save_path)
  /\ (q = save_path
      \/ exists k, 1 <= k /\
           fst (os_path.splitext q) =
           fst (os_path.splitext save_path) ++ "_" ++ str.of_nat k).
Proof.
  intros Hq. apply get_unique_save_path_spec in Hq.
  destruct Hq as [k [_ [-> _]]].
  destruct k as [ | k ]; [ split; [ reflexivity | now left ] | ].
  rewrite numbered_path_succ.
  assert (Hins :
    os_path.splitext
      (fst (os_path.splitext save_path)
       ++ ("_" ++ str.of_nat (S k)) ++ snd (os_path.splitext save_path))
    = (fst (os_path.splitext save_path) ++ "_" ++ str.of_nat (S k),
       snd (os_path.splitext save_path))).
  { apply splitext_insert.
    - rewrite splitext_append. now destruct (os_path.splitext save_path).
    - apply counter_suffix_contains_no. now left.
    - apply counter_suffix_contains_no. now right. }
  rewrite string_append_assoc in Hins. rewrite Hins. cbn [fst snd].
  split; [ reflexivity | ].
  right. exists (S k). split; [ lia | reflexivity ].
Qed.

End KeepsExtension.

(** ** Concrete instances of the further properties *)

Example unique_path_second_copy :
  webui.get_unique_save_path
    (webui.listed ["out/a_colorized.png"; "out/a_colorized_1.png"]%string)
    3 "out/a_colorized.png"
  = Some "out/a_colorized_2.png"%string.
Proof. reflexivity. Qed.

Example unique_path_hidden_file :
  webui.get_unique_save_path (webui.listed [".profile"]%string) 2 ".profile"
  = Some ".profile_1"%string.
Proof. reflexivity. Qed.

Example unique_path_out_of_fuel :
  webui.get_unique_save_path
    (webui.listed ["a.png"; "a_1.png"]%string) 2 "a.png" = None.
Proof. reflexivity. Qed.

Lemma forward_after_backward_witness :
  torch.well_formed two_images = true /\
  size two_images = (2, 1, 2, 2) /\
  (b <- UpSampleFeaturesFunction.backward two_images ;;
   UpSampleFeaturesFunction.forward b) = Ok two_images.
Proof.
  split; [ reflexivity | split; [ reflexivity | ] ].
  apply (@forward_after_backward Z Dtype_Z two_images 2 1 2 2); reflexivity.
Defined.

Lemma fold_features_are_backward_witness :
  size rgb_2x2 = (1, 3, 2, 2) /\
  (y <- concatenate_input_noise_map rgb_2x2 [25%Z] ;;
   torch.getitem y (slice_all, PSlice 3 None 1, slice_all, slice_all))
  = UpSampleFeaturesFunction.backward rgb_2x2 /\
  (y <- concatenate_input_noise_map (promotion := promote_float32_int64)
         int64_block [float32_half] ;;
   torch.getitem y (slice_all, PSlice 1 None 1, slice_all, slice_all))
  = (b <- UpSampleFeaturesFunction.backward int64_block ;;
     Ok (torch.convert float32_of_int64 b)).
Proof.
  split; [ reflexivity | split ].
  - apply (proj2 fold_features_are_backward Z Dtype_Z rgb_2x2 [25%Z]
             1 3 2 2); reflexivity.
  - apply (proj1 fold_features_are_backward Z spec_float spec_float
             Dtype_Z Dtype_float32 Dtype_float32 promote_float32_int64
             int64_block [float32_half] 1 1 2 2); reflexivity.
Defined.

Lemma fold_blocks_are_separate_witness :
  size int64_block = (1, 1, 2, 2) /\ size int64_block' = (1, 1, 2, 2) /\
  (y <- concatenate_input_noise_map (promotion := promote_float32_int64)
         int64_block [float32_half] ;;
   torch.getitem y (slice_all, PSlice 0 (Some 1) 1, slice_all, slice_all))
  = (y <- concatenate_input_noise_map (promotion := promote_float32_int64)
          int64_block' [float32_half] ;;
     torch.getitem y (slice_all, PSlice 0 (Some 1) 1, slice_all, slice_all))
  /\
  (y <- concatenate_input_noise_map (promotion := promote_float32_int64)
         int64_block [float32_half] ;;
   torch.getitem y (slice_all, PSlice 1 None 1, slice_all, slice_all))
  = (y <- concatenate_input_noise_map (promotion := promote_float32_int64)
          int64_block [float32_of_int64 3] ;;
     torch.getitem y (slice_all, PSlice 1 None 1, slice_all, slice_all)).
Proof.
  split; [ reflexivity | split; [ reflexivity | ] ].
  apply (@fold_blocks_are_separate Z spec_float spec_float
           Dtype_Z Dtype_float32 Dtype_float32 promote_float32_int64
           int64_block int64_block' [float32_half] [float32_of_int64 3]
           1 1 2 2); reflexivity.
Defined.

Lemma forward_rejects_folded_witness :
  size rgb_2x2 = (1, 3, 2, 2) /\ 3 mod 4 <> 0 /\
  (y <- concatenate_input_noise_map rgb_2x2 [25%Z] ;;
   UpSampleFeaturesFunction.forward y) =
  Raise (AssertionError
    "Invalid input dimensions: number of channels should be divisible by 4").
Proof.
  split; [ reflexivity | split; [ cbn; lia | ] ].
  apply (@forward_rejects_folded Z Z Z Dtype_Z Dtype_Z Dtype_Z (Promote_same Z)
           rgb_2x2 [25%Z] 1 3 2 2);
    solve [ reflexivity | cbn; lia ].
Defined.

Lemma concatenate_input_noise_map_fails_iff_witness :
  size width_1_batch = (2, 1, 2, 1) /\
  (fails (concatenate_input_noise_map width_1_batch [5%Z; 6%Z]) <->
   List.length [5%Z; 6%Z] <> 2
   \/ (2 mod 2 = 1 /\ 2 <> 1) \/ (1 mod 2 = 1 /\ 1 <> 1)).
Proof.
  split; [ reflexivity | ].
  apply (@concatenate_input_noise_map_fails_iff Z Z Z Dtype_Z Dtype_Z Dtype_Z (Promote_same Z)
           width_1_batch
           [5%Z; 6%Z] 2 1 2 1).
  reflexivity.
Defined.

Lemma backward_fails_iff_witness :
  size height_3_batch = (1, 1, 3, 2) /\
  (fails (UpSampleFeaturesFunction.backward height_3_batch) <->
   (3 mod 2 = 1 /\ 3 <> 1) \/ (2 mod 2 = 1 /\ 2 <> 1)).
Proof.
  split; [ reflexivity | ].
  apply (@backward_fails_iff Z Dtype_Z height_3_batch 1 1 3 2).
  reflexivity.
Defined.

Lemma backward_drops_single_row_or_column_witness :
  size width_1_batch = (2, 1, 2, 1) /\
  exists b,
    UpSampleFeaturesFunction.backward width_1_batch = Ok b /\
    size b = (2, 4 * 1, 2 / 2, 1 / 2) /\
    elements b = [].
Proof.
  split; [ reflexivity | ].
  apply (@backward_drops_single_row_or_column Z Dtype_Z width_1_batch
           2 1 2 1);
    solve [ reflexivity | left; reflexivity | right; reflexivity ].
Defined.

Lemma forward_permutes_witness :
  torch.well_formed two_stacks = true /\
  size two_stacks = (2, 4, 1, 1) /\
  exists y,
    UpSampleFeaturesFunction.forward two_stacks = Ok y /\
    Permutation (elements y) (elements two_stacks).
Proof.
  split; [ reflexivity | split; [ reflexivity | ] ].
  apply (@forward_permutes Z Dtype_Z Z.eq_dec two_stacks 2 4 1 1);
    reflexivity.
Defined.

Lemma backward_permutes_witness :
  torch.well_formed two_images = true /\
  size two_images = (2, 1, 2, 2) /\
  exists b,
    UpSampleFeaturesFunction.backward two_images = Ok b /\
    Permutation (elements b) (elements two_images).
Proof.
  split; [ reflexivity | split; [ reflexivity | ] ].
  apply (@backward_permutes Z Dtype_Z Z.eq_dec two_images 2 1 2 2);
    reflexivity.
Defined.

Lemma get_unique_save_path_terminates_witness :
  List.length ["a.png"; "a_1.png"]%string < 3 /\
  exists q k,
    webui.get_unique_save_path
      (webui.listed ["a.png"; "a_1.png"]%string) 3 "a.png" = Some q
    /\ q = webui.numbered_path "a.png" k
    /\ k <= List.length ["a.png"; "a_1.png"]%string
    /\ ~ In q ["a.png"; "a_1.png"]%string.
Proof.
  split; [ cbn; lia | ].
  apply (@get_unique_save_path_terminates
           ["a.png"; "a_1.png"]%string "a.png" 3).
  cbn. lia.
Defined.

Lemma get_unique_save_path_keeps_extension_witness :
  webui.get_unique_save_path
    (webui.listed ["out/a.tar.gz"]%string) 2 "out/a.tar.gz"
  = Some "out/a.tar_1.gz"%string /\
  snd (os_path.splitext "out/a.tar_1.gz") =
  snd (os_path.splitext "out/a.tar.gz") /\
  ("out/a.tar_1.gz"%string = "out/a.tar.gz"%string
   \/ exists k, 1 <= k /\
        fst (os_path.splitext "out/a.tar_1.gz") =
        String.append (fst (os_path.splitext "out/a.tar.gz"))
          (String.append "_" (str.of_nat k))).
Proof.
  split; [ reflexivity | ].
  apply (@get_unique_save_path_keeps_extension
           (webui.listed ["out/a.tar.gz"]%string) "out/a.tar.gz" 2).
  reflexivity.
Defined.

Lemma upscale_image_in_place_witness :
  webui.upscale_image "Linux" recording_run
    "out/a_colorized.png" "out/a_colorized.png"
    "realesrgan-x4plus" "jpg" 4 []
  = Ok ("out/a_colorized.jpg"%string,
        [["realesrgan/realesrgan-ncnn-vulkan"; "-i"; "out/a_colorized.png";
          "-o"; "out/a_colorized.jpg"; "-s"; "4";
          "-n"; "realesrgan-x4plus"; "-f"; "jpg"]%string]) /\
  (("out/a_colorized.jpg"%string = "out/a_colorized.png"%string <->
    snd (os_path.splitext "out/a_colorized.png") = String.append "." "jpg")
   /\ exists command,
        recording_run command [] = Ok [command]
        /\ nth_error command 3 = Some "-o"%string
        /\ nth_error command 4 = Some "out/a_colorized.jpg"%string).
Proof.
  split; [ reflexivity | ].
  destruct (@upscale_image_in_place (list (list string)) "Linux"
              recording_run "out/a_colorized.png" "out/a_colorized.png"
              "realesrgan-x4plus" "jpg" 4 []
              [["realesrgan/realesrgan-ncnn-vulkan"; "-i";
                "out/a_colorized.png"; "-o"; "out/a_colorized.jpg";
                "-s"; "4"; "-n"; "realesrgan-x4plus"; "-f"; "jpg"]%string]
              "out/a_colorized.jpg" eq_refl)
    as [Hiff [command [Hrun [Ho Hq]]]].
  split; [ exact Hiff | ].
  exists command. split; [ | split; assumption ].
  rewrite Hrun. unfold recording_run in Hrun. injection Hrun as Hrun.
  now rewrite Hrun.
Defined.

